(** * Call session controller and insight display of the meeting page

    Shallow embedding of
      - src/components/meeting/Index.tsx            (component [MeetingPage])
      - src/components/meeting/MeetingWorkspace.tsx (component [MeetingWorkspace])

    [MeetingPage] is a React function component.  Every render runs the
    function body afresh: the state variables are constants of that render
    and the handlers defined in the body are closures over them.  A handler
    therefore reads the values of the render that created it ([Render]
    below) while its [setX] calls write the component's current state.
    Browser objects the handlers act on (media tracks, pending promises,
    the [onended] property of a track) live in a store shared by all
    closures ([World]). *)

From stdpp Require Import gmap strings list.
From Stdlib Require Import ZArith Lia.

#[local] Set Warnings "-clear-no-such-hyp".
Open Scope Z_scope.
Open Scope nat_scope.

(** ** Browser media objects *)

Inductive TrackKind := video | audio.

#[global] Instance TrackKind_eq_dec : EqDecision TrackKind.
Proof. solve_decision. Defined.

(** A [MediaStreamTrack]; the identifier stands for the object identity. *)
Record MediaStreamTrack := mkTrack { track_id : nat; kind : TrackKind }.

#[global] Instance MediaStreamTrack_eq_dec : EqDecision MediaStreamTrack.
Proof. solve_decision. Defined.

(** A [MediaStream] with the tracks [getTracks()] returns. *)
Record MediaStream := mkStream { getTracks : list MediaStreamTrack }.

#[global] Instance MediaStream_eq_dec : EqDecision MediaStream.
Proof. solve_decision. Defined.

Definition getVideoTracks (s : MediaStream) : list MediaStreamTrack :=
  filter (λ t, kind t = video) (getTracks s).

(** A rejection reason or thrown value. *)
Definition Exn := string.

(** ** Transcription client (hook [useTranscriptionWebSocket]) *)

Inductive ConnectionState :=
  Disconnected | Connecting | Connected | Reconnecting | Failed.

Inductive ClientCall := connectCall | disconnectCall.

Inductive NetEvent := onOpen | onClose | retryExhausted.

#[global] Instance NetEvent_eq_dec : EqDecision NetEvent.
Proof. solve_decision. Defined.

(** Modelled from the spec: the hook [useTranscriptionWebSocket]
    (src/hooks/useTranscriptionWebSocket) is not among the sources.  Spec 4.1:
    [Disconnected --connect()--> Connecting]; any state
    [--disconnect()--> Disconnected].  The spec gives [connect()] no
    transition from the other states; they are left as they are. *)
Definition client_call (c : ClientCall) (s : ConnectionState) : ConnectionState :=
  match c with
  | disconnectCall => Disconnected
  | connectCall => match s with Disconnected => Connecting | _ => s end
  end.

(** Modelled from the spec: network transitions of the same absent hook,
    spec 4.1: [Connecting --onOpen--> Connected],
    [Reconnecting --onOpen--> Connected],
    [Connected --onClose/onError--> Reconnecting],
    [Reconnecting --retry exhausted--> Failed]. *)
Definition client_net (n : NetEvent) (s : ConnectionState) : ConnectionState :=
  match n, s with
  | onOpen, Connecting => Connected
  | onOpen, Reconnecting => Connected
  | onClose, Connected => Reconnecting
  | retryExhausted, Reconnecting => Failed
  | _, _ => s
  end.

(** ** Component state *)

(** The [useState] values of one render of [MeetingPage] (Index.tsx 11-14
    and 32).  [showControls] and the refs only drive the layout and are
    left out. *)
Record Render := mkRender {
  isCallActive : bool;
  isMicOn : bool;
  isVideoOn : bool;
  isScreenSharing : bool;
  stream : option MediaStream
}.

(** Which handler awaits a [getDisplayMedia] promise. *)
Inductive Caller := ViaToggleCall | ViaToggleScreenShare.

Record World := mkWorld {
  (** current React state *)
  ui : Render;
  (** tracks whose [readyState] is ["ended"] *)
  ended : gset nat;
  (** [track.onended]: the render whose [stopScreenShare] the handler calls *)
  onended : gmap nat Render;
  (** status of the transcription client *)
  client : ConnectionState;
  (** calls made on the transcription hook, most recent first *)
  client_calls : list ClientCall;
  (** [getDisplayMedia] promises not settled yet, with the awaiting closure *)
  pending : list (Caller * Render);
  (** history: every stream [getDisplayMedia] has resolved with, most
      recent first (not program state; used to state ownership) *)
  acquired : list MediaStream
}.

Definition with_ui (f : Render → Render) (w : World) : World :=
  mkWorld (f (ui w)) (ended w) (onended w) (client w) (client_calls w)
          (pending w) (acquired w).

Definition initial_render : Render := mkRender false false false false None.

Definition initial_world : World :=
  mkWorld initial_render ∅ ∅ Disconnected [] [] [].

(** ** Handlers as state-and-exception computations *)

Inductive Completion (A : Type) :=
| Normal (a : A)
| Thrown (e : Exn).
Arguments Normal {A} a.
Arguments Thrown {A} e.

Definition JS (A : Type) : Type := World → Completion A * World.

Definition ret {A} (a : A) : JS A := λ w, (Normal a, w).

Definition throw {A} (e : Exn) : JS A := λ w, (Thrown e, w).

Definition bind {A B} (c : JS A) (k : A → JS B) : JS B :=
  λ w, match c w with
       | (Normal a, w') => k a w'
       | (Thrown e, w') => (Thrown e, w')
       end.

Definition try_catch {A} (c : JS A) (h : Exn → JS A) : JS A :=
  λ w, match c w with
       | (Normal a, w') => (Normal a, w')
       | (Thrown e, w') => h e w'
       end.

Definition modify (f : World → World) : JS unit := λ w, (Normal tt, f w).

Declare Scope js_scope.
Delimit Scope js_scope with js.
Notation "x <- c ;; k" := (bind c (λ x, k))
  (at level 100, c at next level, right associativity) : js_scope.
Notation "c ;; k" := (bind c (λ _, k))
  (at level 100, right associativity) : js_scope.
Notation "'try' c 'catch' h" := (try_catch c h)
  (at level 10, c at level 9, h at level 9) : js_scope.
Open Scope js_scope.

Fixpoint forEach {A} (l : list A) (f : A → JS unit) : JS unit :=
  match l with
  | [] => ret tt
  | x :: l' => f x ;; forEach l' f
  end.

(** *** Primitive effects *)

Definition setIsCallActive (b : bool) : JS unit :=
  modify (with_ui (λ r, mkRender b (isMicOn r) (isVideoOn r) (isScreenSharing r) (stream r))).

Definition setIsMicOn (b : bool) : JS unit :=
  modify (with_ui (λ r, mkRender (isCallActive r) b (isVideoOn r) (isScreenSharing r) (stream r))).

Definition setIsVideoOn (b : bool) : JS unit :=
  modify (with_ui (λ r, mkRender (isCallActive r) (isMicOn r) b (isScreenSharing r) (stream r))).

Definition setIsScreenSharing (b : bool) : JS unit :=
  modify (with_ui (λ r, mkRender (isCallActive r) (isMicOn r) (isVideoOn r) b (stream r))).

Definition setStream (s : option MediaStream) : JS unit :=
  modify (with_ui (λ r, mkRender (isCallActive r) (isMicOn r) (isVideoOn r) (isScreenSharing r) s)).

(** [track.stop()]: the track's [readyState] becomes ["ended"]. *)
Definition track_stop (t : MediaStreamTrack) : JS unit :=
  modify (λ w, mkWorld (ui w) ({[track_id t]} ∪ ended w) (onended w) (client w)
                       (client_calls w) (pending w) (acquired w)).

(** [track.onended = () => { stopScreenShare(); }] with [stopScreenShare]
    the closure of render [env]. *)
Definition set_onended (t : MediaStreamTrack) (env : Render) : JS unit :=
  modify (λ w, mkWorld (ui w) (ended w) (<[track_id t := env]> (onended w)) (client w)
                       (client_calls w) (pending w) (acquired w)).

Definition call_client (c : ClientCall) : JS unit :=
  modify (λ w, mkWorld (ui w) (ended w) (onended w) (client_call c (client w))
                       (c :: client_calls w) (pending w) (acquired w)).

Definition connectTranscription : JS unit := call_client connectCall.
Definition disconnectTranscription : JS unit := call_client disconnectCall.

(** [navigator.mediaDevices.getDisplayMedia(...)] called from [who] in
    render [env]: the promise is pending until the browser settles it. *)
Definition getDisplayMedia (who : Caller) (env : Render) : JS unit :=
  modify (λ w, mkWorld (ui w) (ended w) (onended w) (client w) (client_calls w)
                       (pending w ++ [(who, env)]) (acquired w)).

(** The [await]: a rejected promise throws, a resolved one yields the stream. *)
Definition await (r : Exn + MediaStream) : JS MediaStream :=
  match r with
  | inl e => throw e
  | inr s =>
      modify (λ w, mkWorld (ui w) (ended w) (onended w) (client w) (client_calls w)
                           (pending w) (s :: acquired w)) ;;
      ret s
  end.

(** *** Index.tsx 99-113 *)
Definition stopScreenShare (env : Render) : JS unit :=
  match stream env with
  | Some s => forEach (getTracks s) track_stop
  | None => ret tt
  end ;;
  setStream None ;;
  setIsScreenSharing false.

(** *** Index.tsx 64-96, from the point where the awaited promise settles
    with [r]; before the [await] the function only logs. *)
Definition startScreenShare (env : Render) (r : Exn + MediaStream) : JS MediaStream :=
  try (
    screenStream <- await r ;;
    setStream (Some screenStream) ;;
    setIsScreenSharing true ;;
    let videoTracks := getVideoTracks screenStream in
    match videoTracks with
    | t0 :: _ => set_onended t0 env
    | [] => ret tt
    end ;;
    ret screenStream)
  catch (λ error, throw error).

(** *** Index.tsx 116-136: up to the [await] ... *)
Definition toggleCall (env : Render) : JS unit :=
  if isCallActive env then
    setIsCallActive false ;;
    setIsMicOn false ;;
    setIsVideoOn false ;;
    (if isScreenSharing env then stopScreenShare env else ret tt) ;;
    disconnectTranscription
  else
    setIsCallActive true ;;
    setIsMicOn true ;;
    connectTranscription ;;
    getDisplayMedia ViaToggleCall env.

(** ... and from the [await] on. *)
Definition toggleCall_resume (env : Render) (r : Exn + MediaStream) : JS unit :=
  try (startScreenShare env r ;; ret tt) catch (λ _, ret tt).

(** *** Index.tsx 139-142 *)
Definition toggleMic (env : Render) : JS unit :=
  setIsMicOn (negb (isMicOn env)).

(** *** Index.tsx 145-148 *)
Definition toggleVideo (env : Render) : JS unit :=
  setIsVideoOn (negb (isVideoOn env)).

(** *** Index.tsx 151-161: up to the [await] ... *)
Definition toggleScreenShare (env : Render) : JS unit :=
  if isScreenSharing env then stopScreenShare env
  else getDisplayMedia ViaToggleScreenShare env.

(** ... and from the [await] on. *)
Definition toggleScreenShare_resume (env : Render) (r : Exn + MediaStream) : JS unit :=
  try (startScreenShare env r ;; ret tt) catch (λ _, ret tt).

(** ** The event loop *)

(** What can happen to a mounted [MeetingPage].  React re-renders after
    every handler, so a click runs the handler of the current render. *)
Inductive Event :=
| ClickToggleMic
| ClickToggleVideo
| ClickToggleScreenShare
| ClickToggleCall
(** the browser settles the [i]-th pending [getDisplayMedia] promise *)
| DisplayMediaSettled (i : nat) (r : Exn + MediaStream)
(** the capture source of track [t] ends (the user stops sharing through
    the browser or the operating system): the track's [ended] event fires *)
| TrackEnded (t : nat)
(** the transcription connection changes by itself *)
| Network (n : NetEvent).

#[global] Instance Event_eq_dec : EqDecision Event.
Proof. solve_decision. Defined.

Definition resume (who : Caller) : Render → Exn + MediaStream → JS unit :=
  match who with
  | ViaToggleCall => toggleCall_resume
  | ViaToggleScreenShare => toggleScreenShare_resume
  end.

Definition take_pending (i : nat) : JS unit :=
  modify (λ w, mkWorld (ui w) (ended w) (onended w) (client w) (client_calls w)
                       (delete i (pending w)) (acquired w)).

Definition source_ended (t : nat) : JS unit :=
  modify (λ w, mkWorld (ui w) ({[t]} ∪ ended w) (onended w) (client w)
                       (client_calls w) (pending w) (acquired w)).

Definition network (n : NetEvent) : JS unit :=
  modify (λ w, mkWorld (ui w) (ended w) (onended w) (client_net n (client w))
                       (client_calls w) (pending w) (acquired w)).

(** Runs the code the event triggers; the completion is what reaches the
    event loop ([Thrown]: an uncaught exception or unhandled rejection). *)
Definition dispatch (w : World) (e : Event) : Completion unit * World :=
  match e with
  | ClickToggleMic => toggleMic (ui w) w
  | ClickToggleVideo => toggleVideo (ui w) w
  | ClickToggleScreenShare => toggleScreenShare (ui w) w
  | ClickToggleCall => toggleCall (ui w) w
  | DisplayMediaSettled i r =>
      match pending w !! i with
      | Some (who, env) => (take_pending i ;; resume who env r) w
      | None => (Normal tt, w)
      end
  | TrackEnded t =>
      if decide (t ∈ ended w) then (Normal tt, w)
      else match onended w !! t with
           | Some env => (source_ended t ;; stopScreenShare env) w
           | None => source_ended t w
           end
  | Network n => network n w
  end.

Definition step (w : World) (e : Event) : World := snd (dispatch w e).

Definition run (w : World) (es : list Event) : World := foldl step w es.

Inductive reachable : World → Prop :=
| reach_init : reachable initial_world
| reach_step w e : reachable w → reachable (step w e).

(** ** Operations that complete at once

    A controller operation whose [getDisplayMedia] promise, if it makes
    one, is settled with [r] before anything else happens. *)
Definition settled_at_once (e : Event) (r : Exn + MediaStream) (w : World) : World :=
  let w1 := step w e in
  if length (pending w) <? length (pending w1)
  then step w1 (DisplayMediaSettled (length (pending w)) r)
  else w1.

Inductive Op :=
| OpToggleScreenShare (r : Exn + MediaStream)
| OpStartScreenShare (r : Exn + MediaStream)
| OpStopScreenShare.

Definition run_op (w : World) (o : Op) : World :=
  match o with
  | OpToggleScreenShare r => settled_at_once ClickToggleScreenShare r w
  | OpStartScreenShare r => snd (startScreenShare (ui w) r w)
  | OpStopScreenShare => snd (stopScreenShare (ui w) w)
  end.

Definition run_ops (w : World) (os : list Op) : World := foldl run_op w os.

(** ** Ownership of the captured stream *)

Definition all_ended (s : MediaStream) (w : World) : Prop :=
  ∀ t, t ∈ getTracks s → track_id t ∈ ended w.

(** Every capture ever acquired is the one the controller holds or has all
    its tracks ended: at most one capture is live, and it is the held one. *)
Definition single_owner (w : World) : Prop :=
  ∀ s, s ∈ acquired w → stream (ui w) = Some s ∨ all_ended s w.

(** The flag [isScreenSharing] and the reference [stream] agree. *)
Definition coherent (r : Render) : Prop :=
  match stream r with
  | Some _ => isScreenSharing r = true
  | None => isScreenSharing r = false
  end.

(** Whether an operation run in [w] obtained a new capture. *)
Definition acquires (w : World) (o : Op) : Prop :=
  length (acquired w) < length (acquired (run_op w o)).

(** Along [os] from [w], every acquisition starts with nothing held and
    every earlier capture stopped. *)
Fixpoint acquires_only_when_free (w : World) (os : list Op) : Prop :=
  match os with
  | [] => True
  | o :: os' =>
      (acquires w o →
       stream (ui w) = None ∧ ∀ s, s ∈ acquired w → all_ended s w)
      ∧ acquires_only_when_free (run_op w o) os'
  end.

(** Sample captures: a screen with its audio, and a second screen. *)
Definition screen1 : MediaStream := mkStream [mkTrack 1 video; mkTrack 2 audio].
Definition screen2 : MediaStream := mkStream [mkTrack 3 video].

(** ** Sample states and the claims of the spec as propositions *)

(** A session that was started and whose capture was granted. *)
Definition sharing_call : World :=
  run initial_world [ClickToggleCall; DisplayMediaSettled 0 (inr screen1)].

(** A call that has just been started from the initial state. *)
Definition started_call : World := step initial_world ClickToggleCall.

(** The tracks [stopScreenShare] of a render stops. *)
Definition tracks_of (o : option MediaStream) : gset nat :=
  match o with
  | Some s => list_to_set (track_id <$> getTracks s)
  | None => ∅
  end.

(** The operations that test [isScreenSharing] before they acquire. *)
Definition guarded (o : Op) : Prop :=
  match o with
  | OpStartScreenShare _ => False
  | _ => True
  end.

(** C2 as the spec words it: after start, stop and then the resolution of
    the capture request with [s], nothing is held and [s] is released. *)
Definition late_capture_released (w : World) (s : MediaStream) : Prop :=
  stream (ui (run w [ClickToggleCall; ClickToggleCall;
                     DisplayMediaSettled (length (pending w)) (inr s)])) = None
  ∧ all_ended s (run w [ClickToggleCall; ClickToggleCall;
                        DisplayMediaSettled (length (pending w)) (inr s)]).

(** C3 as the spec words it: once stop has ended an active session, no
    sequence of operations and events makes it active again. *)
Definition no_return_after_stop : Prop :=
  ∀ w es, reachable w → isCallActive (ui w) = true →
          isCallActive (ui (run (step w ClickToggleCall) es)) = false.

(** C6 as the spec words it: over every sequence of the three operations
    at most one capture is live and every acquisition starts with nothing
    held. *)
Definition single_owner_always : Prop :=
  ∀ os, single_owner (run_ops initial_world os)
        ∧ acquires_only_when_free initial_world os.

(** ** MeetingWorkspace.tsx: what the insight header displays *)

(** An element of [emotions]: [{ emotion: string; level: number }].
    Levels are taken as integers (the spec's intensities 0-100). *)
Record EmotionEntry := mkEmotion { emotion : string; level : Z }.

(** The part of [Phi3InsightsType] (src/integrations/phi3/phi3Config, not
    among the sources) that the two displayed values read.  The component
    reads [emotions] through [?.], so the field may be undefined. *)
Record Phi3Insights := mkInsights { emotions : option (list EmotionEntry) }.

(** The comparator [(a, b) => b.level - a.level]. *)
Definition by_level_desc (a b : EmotionEntry) : Z := (level b - level a)%Z.

(** [Array.prototype.sort] is stable and orders by the comparator's sign:
    [x] goes before [y] unless [cmp x y > 0]. *)
Fixpoint sort_insert {A} (cmp : A → A → Z) (x : A) (l : list A) : list A :=
  match l with
  | [] => [x]
  | y :: l' => if (cmp x y <=? 0)%Z then x :: y :: l' else y :: sort_insert cmp x l'
  end.

Fixpoint sort {A} (cmp : A → A → Z) (l : list A) : list A :=
  match l with
  | [] => []
  | x :: l' => sort_insert cmp x (sort cmp l')
  end.

(** MeetingWorkspace.tsx 68-71.  [phi3Insights] is [null] until the first
    insight result is published. *)
Definition currentEmotion (phi3Insights : option Phi3Insights) : string :=
  match phi3Insights with
  | Some p =>
      match emotions p with
      | Some es =>
          if 0 <? length es
          then match sort by_level_desc es with
               | e :: _ => emotion e
               | [] => ""  (* [undefined.emotion]; a non-empty array sorts to a non-empty one *)
               end
          else "Interested"
      | None => "Interested"
      end
  | None => "Interested"
  end.

(** [v || d] on an optional number: [undefined] and [0] are falsy. *)
Definition or_default (v : option Z) (d : Z) : Z :=
  match v with
  | Some n => if (n =? 0)%Z then d else n
  | None => d
  end.

(** MeetingWorkspace.tsx 74-75. *)
Definition clientInterest (phi3Insights : option Phi3Insights) : Z :=
  or_default
    (p ← phi3Insights;
     es ← emotions p;
     e ← List.find (λ e, String.eqb (emotion e) "Interest") es;
     Some (level e))
    75%Z.

(** MeetingWorkspace.tsx 89: [isCallActive && !!stream]. *)
Definition isScreenShareActive (callActive : bool) (held : option MediaStream) : bool :=
  callActive && bool_decide (is_Some held).

(** The preview flag for the props [MeetingPage] passes in a render
    (Index.tsx 208-218: [isCallActive={isCallActive}], [stream={stream}]). *)
Definition preview_shown (r : Render) : bool :=
  isScreenShareActive (isCallActive r) (stream r).

(** The text fields of the same insight object that the header reads
    through [?.]: [aiCoaching] and [callStage]. *)
Record Phi3Texts := mkTexts { aiCoaching : option string; callStage : option string }.

(** [v || d] on an optional string: [undefined] and the empty string are
    falsy. *)
Definition or_default_string (v : option string) (d : string) : string :=
  match v with
  | Some s => if String.eqb s "" then d else s
  | None => d
  end.

(** MeetingWorkspace.tsx 64. *)
Definition aiResponse (phi3Insights : option Phi3Texts) : string :=
  or_default_string (p ← phi3Insights; aiCoaching p)
    "Ask about their current workflow and pain points to better understand their needs.".

(** MeetingWorkspace.tsx 65. *)
Definition currentStage (phi3Insights : option Phi3Texts) : string :=
  or_default_string (p ← phi3Insights; callStage p) "Discovery".

(** ** Index.tsx 164-180: showing and hiding the controls bar *)

(** [showControls] (Index.tsx 15), [mouseTimeoutRef.current] (Index.tsx 18)
    and the timer ids handed to [window.clearTimeout], most recent first. *)
Record Controls := mkControls {
  showControls : bool;
  mouseTimeoutRef : option Z;
  clearedTimeouts : list Z
}.

(** Index.tsx 15 and 18. *)
Definition initial_controls : Controls := mkControls true None [].

(** Truthiness of a [number | null]: [null] and [0] are falsy. *)
Definition truthy_number (v : option Z) : bool :=
  match v with
  | Some n => negb (n =? 0)%Z
  | None => false
  end.

(** Index.tsx 164-180, for the closure of a render whose [showControls] is
    [env], at a mouse event with [clientY] in a window of height
    [innerHeight]. *)
Definition handleMouseMove (env : bool) (clientY innerHeight : Z) (c : Controls) : Controls :=
  let windowHeight := innerHeight in
  let shouldShowControls := (windowHeight - 100 <? clientY)%Z in
  let c1 :=
    if bool_decide (shouldShowControls ≠ env)
    then mkControls shouldShowControls (mouseTimeoutRef c) (clearedTimeouts c)
    else c in
  if truthy_number (mouseTimeoutRef c1)
  then mkControls (showControls c1) None
         (match mouseTimeoutRef c1 with
          | Some n => n :: clearedTimeouts c1
          | None => clearedTimeouts c1
          end)
  else c1.

(** A [mousemove] event.  The effect of Index.tsx 183-192 registers the
    handler again whenever [showControls] changes, so the handler that runs
    is the closure of a render with the current [showControls]. *)
Definition mouse_move (c : Controls) (m : Z * Z) : Controls :=
  handleMouseMove (showControls c) (fst m) (snd m) c.

Definition mouse_moves (c : Controls) (ms : list (Z * Z)) : Controls :=
  foldl mouse_move c ms.

(** Index.tsx 203-206: the height of the main meeting area. *)
Definition main_area_height (c : Controls) : string :=
  if showControls c then "calc(100vh - 80px)" else "100vh".

(** ** Phi3ModelLoader (second component of MeetingWorkspace.tsx, 204-308) *)

(** What [usePhi3Context()] supplies besides [initialize]. *)
Record Phi3Context := mkContext {
  isLoaded : bool;
  isLoading : bool;
  loadError : option string
}.

(** The local state [isInitiating] and the number of calls of the
    [onLoad] prop so far. *)
Record Loader := mkLoader { isInitiating : bool; onLoad_calls : nat }.

(** MeetingWorkspace.tsx 221-224: [handleLoadModel] up to
    [await initialize()]. *)
Definition handleLoadModel (l : Loader) : Loader :=
  mkLoader true (onLoad_calls l).

(** MeetingWorkspace.tsx 224-230: from the [await] on.  [r] is the outcome
    of [initialize()]: a rejection, or a result with its [success] field.
    [onLoad] is the prop, if given, with the completion a call of it has.
    There is a [finally] and no [catch]. *)
Definition handleLoadModel_resume (onLoad : option (Completion unit))
    (r : Exn + bool) (l : Loader) : Completion unit * Loader :=
  let body : Completion unit * Loader :=
    match r with
    | inl e => (Thrown e, l)
    | inr success =>
        match success, onLoad with
        | true, Some c => (c, mkLoader (isInitiating l) (S (onLoad_calls l)))
        | _, _ => (Normal tt, l)
        end
    end in
  (fst body, mkLoader false (onLoad_calls (snd body))).

(** What the component renders. *)
Record LoaderView := mkLoaderView {
  statusText : string;
  (** the load button, when rendered: its [disabled] attribute and label *)
  loadButton : option (bool * string);
  readyNote : bool;
  errorBox : option string
}.

(** Truthiness of a [string | null]. *)
Definition truthy_string (v : option string) : bool :=
  match v with
  | Some s => negb (String.eqb s "")
  | None => false
  end.

(** MeetingWorkspace.tsx 233-305; [None] is [return null]. *)
Definition Phi3ModelLoader_render (ctx : Phi3Context) (hideWhenLoaded : bool)
    (l : Loader) : option LoaderView :=
  if isLoaded ctx && hideWhenLoaded then None
  else Some (mkLoaderView
    (if isLoaded ctx then "Loaded"
     else if isLoading ctx || isInitiating l then "Loading..."
     else if truthy_string (loadError ctx) then "Error"
     else "Not loaded")
    (if negb (isLoaded ctx) && negb (isLoading ctx)
     then Some (isLoading ctx || isInitiating l,
                if isLoading ctx || isInitiating l
                then "Loading Phi-3 Mini..."
                else "Load Phi-3 Mini AI Model")
     else None)
    (isLoaded ctx)
    (if truthy_string (loadError ctx) then loadError ctx else None)).

(** ** Basic facts about the handlers *)

Ltac js_unfold :=
  unfold toggleCall, toggleCall_resume, toggleScreenShare, toggleScreenShare_resume,
    toggleMic, toggleVideo, startScreenShare, await, take_pending, source_ended,
    network, getDisplayMedia, connectTranscription, disconnectTranscription,
    call_client, set_onended, setStream, setIsScreenSharing, setIsVideoOn,
    setIsMicOn, setIsCallActive, try_catch, bind, ret, throw, modify, with_ui in *.

Lemma forEach_track_stop (l : list MediaStreamTrack) (w : World) :
  forEach l track_stop w =
  (Normal tt,
   mkWorld (ui w) (list_to_set (track_id <$> l) ∪ ended w) (onended w) (client w)
           (client_calls w) (pending w) (acquired w)).
Proof.
  revert w. induction l as [|t l IH]; intros w; simpl.
  - unfold ret. f_equal. destruct w; simpl. f_equal. set_solver.
  - unfold bind, track_stop, modify. rewrite IH. simpl. do 2 f_equal. set_solver.
Qed.

Lemma stopScreenShare_eq (env : Render) (w : World) :
  stopScreenShare env w =
  (Normal tt,
   mkWorld (mkRender (isCallActive (ui w)) (isMicOn (ui w)) (isVideoOn (ui w)) false None)
           (tracks_of (stream env) ∪ ended w) (onended w) (client w)
           (client_calls w) (pending w) (acquired w)).
Proof.
  unfold stopScreenShare. destruct (stream env) as [s|]; simpl.
  - unfold bind at 1. unfold bind at 1. rewrite forEach_track_stop. reflexivity.
  - js_unfold. simpl. do 2 f_equal. set_solver.
Qed.

Lemma startScreenShare_rejected (env : Render) (e : Exn) (w : World) :
  startScreenShare env (inl e) w = (Thrown e, w).
Proof. reflexivity. Qed.

Lemma elem_of_tracks_of (s : MediaStream) (t : MediaStreamTrack) :
  t ∈ getTracks s → track_id t ∈ tracks_of (Some s).
Proof.
  intros Ht. simpl. apply elem_of_list_to_set, list_elem_of_fmap. eauto.
Qed.

Lemma resume_eq (who : Caller) (env : Render) (r : Exn + MediaStream) (w : World) :
  resume who env r w =
  match r with
  | inl _ => (Normal tt, w)
  | inr s =>
      (Normal tt,
       mkWorld (mkRender (isCallActive (ui w)) (isMicOn (ui w)) (isVideoOn (ui w)) true (Some s))
               (ended w)
               (match getVideoTracks s with
                | t0 :: _ => <[track_id t0 := env]> (onended w)
                | [] => onended w
                end)
               (client w) (client_calls w) (pending w) (s :: acquired w))
  end.
Proof.
  destruct who, r as [e|s]; simpl; js_unfold; simpl;
    try reflexivity; destruct (getVideoTracks s); reflexivity.
Qed.

(** The flag and the reference are written together, so they always agree. *)
Lemma step_coherent (w : World) (e : Event) :
  coherent (ui w) → coherent (ui (step w e)).
Proof.
  intros Hc. unfold step, dispatch.
  destruct e as [| | | |i r|t|n]; js_unfold; simpl.
  - exact Hc.
  - exact Hc.
  - destruct (isScreenSharing (ui w)) eqn:Hs.
    + rewrite stopScreenShare_eq. reflexivity.
    + simpl. exact Hc.
  - destruct (isCallActive (ui w)); simpl.
    + destruct (isScreenSharing (ui w)) eqn:Hs; simpl.
      * rewrite stopScreenShare_eq. reflexivity.
      * unfold coherent in *. simpl. destruct (stream (ui w)); congruence.
    + exact Hc.
  - destruct (pending w !! i) as [[who env]|]; [|exact Hc].
    rewrite resume_eq. destruct r; simpl; [exact Hc | reflexivity].
  - destruct (decide (t ∈ ended w)); [exact Hc|].
    destruct (onended w !! t); [|exact Hc].
    rewrite stopScreenShare_eq. reflexivity.
  - exact Hc.
Qed.

Lemma reachable_coherent (w : World) : reachable w → coherent (ui w).
Proof.
  induction 1 as [|w e _ IH]; [reflexivity | by apply step_coherent].
Qed.

(** Only [toggleCall] writes [isCallActive]. *)
Lemma step_isCallActive (w : World) (e : Event) :
  e ≠ ClickToggleCall → isCallActive (ui (step w e)) = isCallActive (ui w).
Proof.
  intros Hne. unfold step, dispatch.
  destruct e as [| | | |i r|t|n]; js_unfold; simpl; try reflexivity.
  - destruct (isScreenSharing (ui w)); [rewrite stopScreenShare_eq|]; reflexivity.
  - congruence.
  - destruct (pending w !! i) as [[who env]|]; [|reflexivity].
    rewrite resume_eq. destruct r; reflexivity.
  - destruct (decide (t ∈ ended w)); [reflexivity|].
    destruct (onended w !! t); [rewrite stopScreenShare_eq|]; reflexivity.
Qed.

Lemma run_isCallActive (es : list Event) (w : World) :
  Forall (λ e, e ≠ ClickToggleCall) es →
  isCallActive (ui (run w es)) = isCallActive (ui w).
Proof.
  revert w. induction es as [|e es IH]; intros w Hes; [reflexivity|].
  inversion Hes as [|? ? He Hes']; subst. simpl.
  unfold run in IH. rewrite IH by assumption. by apply step_isCallActive.
Qed.

(** What [stop()] does: [toggleCall] in a render where the call is active. *)
Lemma toggleCall_stop_eq (w : World) :
  isCallActive (ui w) = true →
  step w ClickToggleCall =
  mkWorld
    (mkRender false false false
              (if isScreenSharing (ui w) then false else isScreenSharing (ui w))
              (if isScreenSharing (ui w) then None else stream (ui w)))
    ((if isScreenSharing (ui w) then tracks_of (stream (ui w)) else ∅) ∪ ended w)
    (onended w) Disconnected (disconnectCall :: client_calls w) (pending w)
    (acquired w).
Proof.
  intros Ha. unfold step, dispatch, toggleCall. rewrite Ha.
  js_unfold. simpl. destruct (isScreenSharing (ui w)); simpl.
  - rewrite stopScreenShare_eq. reflexivity.
  - f_equal. set_solver.
Qed.

(** What [start()] does up to its [await]. *)
Lemma toggleCall_start_eq (w : World) :
  isCallActive (ui w) = false →
  dispatch w ClickToggleCall =
  (Normal tt,
   mkWorld
     (mkRender true true (isVideoOn (ui w)) (isScreenSharing (ui w)) (stream (ui w)))
     (ended w) (onended w) (client_call connectCall (client w))
     (connectCall :: client_calls w) (pending w ++ [(ViaToggleCall, ui w)])
     (acquired w)).
Proof.
  intros Ha. unfold dispatch, toggleCall. rewrite Ha. reflexivity.
Qed.

(** ** Teardown *)

(** C1: in every reachable state where the call is active, whatever toggles
    and events came before, [toggleCall] (stop) ends without an exception
    and leaves [isCallActive], [isMicOn], [isVideoOn] and [isScreenSharing]
    false, the transcription client disconnected ([disconnect()] was the
    last call made on it), the stream reference cleared, and every track of
    the stream that was held ended. *)
Theorem stop_leaves_everything_inactive (w : World) :
  reachable w →
  isCallActive (ui w) = true →
  fst (dispatch w ClickToggleCall) = Normal tt
  ∧ isCallActive (ui (step w ClickToggleCall)) = false
  ∧ isMicOn (ui (step w ClickToggleCall)) = false
  ∧ isVideoOn (ui (step w ClickToggleCall)) = false
  ∧ isScreenSharing (ui (step w ClickToggleCall)) = false
  ∧ stream (ui (step w ClickToggleCall)) = None
  ∧ client (step w ClickToggleCall) = Disconnected
  ∧ head (client_calls (step w ClickToggleCall)) = Some disconnectCall
  ∧ ∀ s, stream (ui w) = Some s → all_ended s (step w ClickToggleCall).
Proof.
  intros Hr Ha. pose proof (reachable_coherent w Hr) as Hc.
  split.
  { unfold dispatch, toggleCall. rewrite Ha. js_unfold. simpl.
    destruct (isScreenSharing (ui w)); [rewrite stopScreenShare_eq|]; reflexivity. }
  rewrite toggleCall_stop_eq by assumption. simpl.
  unfold coherent in Hc.
  destruct (stream (ui w)) as [s|] eqn:Hs, (isScreenSharing (ui w)) eqn:Hf;
    try discriminate; repeat split; try reflexivity; intros s' Hs'; try discriminate.
  injection Hs' as <-. intros t Ht. simpl.
  apply elem_of_union_l. by apply (elem_of_tracks_of s).
Qed.

Lemma stop_leaves_everything_inactive_witness :
  fst (dispatch sharing_call ClickToggleCall) = Normal tt
  ∧ isCallActive (ui (step sharing_call ClickToggleCall)) = false
  ∧ isMicOn (ui (step sharing_call ClickToggleCall)) = false
  ∧ isVideoOn (ui (step sharing_call ClickToggleCall)) = false
  ∧ isScreenSharing (ui (step sharing_call ClickToggleCall)) = false
  ∧ stream (ui (step sharing_call ClickToggleCall)) = None
  ∧ client (step sharing_call ClickToggleCall) = Disconnected
  ∧ head (client_calls (step sharing_call ClickToggleCall)) = Some disconnectCall
  ∧ ∀ s, stream (ui sharing_call) = Some s → all_ended s (step sharing_call ClickToggleCall).
Proof.
  apply (stop_leaves_everything_inactive sharing_call).
  - exact (reach_step _ _ (reach_step _ _ reach_init)).
  - reflexivity.
Defined.

(** If at most one capture is live when the call is stopped, none is live
    afterwards. *)
Lemma stop_leaves_no_live_capture (w : World) :
  coherent (ui w) → single_owner w → isCallActive (ui w) = true →
  ∀ s, s ∈ acquired (step w ClickToggleCall) → all_ended s (step w ClickToggleCall).
Proof.
  intros Hc Hso Ha s. rewrite toggleCall_stop_eq by assumption. simpl.
  intros Hs t Ht. destruct (Hso s Hs) as [Hheld|Hend].
  - unfold coherent in Hc. rewrite Hheld in Hc. rewrite Hc, Hheld. simpl.
    apply elem_of_union_l, elem_of_list_to_set, list_elem_of_fmap. eauto.
  - apply elem_of_union_r. by apply Hend.
Qed.

(** ** Microphone and camera flags *)

(** C9: in every state, whatever the call state, [toggleMic] negates
    [isMicOn] and [toggleVideo] negates [isVideoOn]; each leaves all the
    other state variables, the tracks, the transcription client and the
    pending promises as they were. *)
Theorem toggleMic_toggleVideo_frame (w : World) :
  dispatch w ClickToggleMic =
    (Normal tt,
     mkWorld (mkRender (isCallActive (ui w)) (negb (isMicOn (ui w))) (isVideoOn (ui w))
                       (isScreenSharing (ui w)) (stream (ui w)))
             (ended w) (onended w) (client w) (client_calls w) (pending w) (acquired w))
  ∧ dispatch w ClickToggleVideo =
    (Normal tt,
     mkWorld (mkRender (isCallActive (ui w)) (isMicOn (ui w)) (negb (isVideoOn (ui w)))
                       (isScreenSharing (ui w)) (stream (ui w)))
             (ended w) (onended w) (client w) (client_calls w) (pending w) (acquired w)).
Proof. split; reflexivity. Qed.

(** ** Releasing the capture *)

(** C10: [stopScreenShare] run twice, in one render or in two successive
    ones, gives the state one run gives.  Run when no stream is held, in a
    state where flag and reference agree (every reachable state), it
    changes nothing; in general it changes nothing exactly when [stream]
    is [null] and [isScreenSharing] is false. *)
Theorem stopScreenShare_idempotent (w : World) :
  run_op (run_op w OpStopScreenShare) OpStopScreenShare = run_op w OpStopScreenShare
  ∧ (∀ env, snd (stopScreenShare env (snd (stopScreenShare env w)))
            = snd (stopScreenShare env w))
  ∧ (run_op w OpStopScreenShare = w
     ↔ stream (ui w) = None ∧ isScreenSharing (ui w) = false)
  ∧ (coherent (ui w) → stream (ui w) = None →
     fst (stopScreenShare (ui w) w) = Normal tt ∧ run_op w OpStopScreenShare = w).
Proof.
  assert (Hnoop : stream (ui w) = None ∧ isScreenSharing (ui w) = false →
                  run_op w OpStopScreenShare = w).
  { intros [Hs Hf]. unfold run_op. rewrite stopScreenShare_eq.
    destruct w as [[c m v f s] e o cl cc p a]. simpl in *.
    subst. f_equal. set_solver. }
  split; [|split; [|split]].
  - unfold run_op. rewrite !stopScreenShare_eq. simpl. f_equal. set_solver.
  - intros env. rewrite !stopScreenShare_eq. simpl. f_equal. set_solver.
  - split; [|exact Hnoop].
    unfold run_op. rewrite stopScreenShare_eq. intros Heq. rewrite <- Heq. done.
  - intros Hc Hs. split; [by rewrite stopScreenShare_eq|].
    apply Hnoop. split; [exact Hs|]. unfold coherent in Hc. by rewrite Hs in Hc.
Qed.

Lemma stopScreenShare_idempotent_witness :
  fst (stopScreenShare (ui initial_world) initial_world) = Normal tt
  ∧ run_op initial_world OpStopScreenShare = initial_world.
Proof.
  apply (stopScreenShare_idempotent initial_world); reflexivity.
Defined.

(** ** Acquisition settling after the call was stopped *)

Lemma lookup_new_pending (w : World) (p : Caller * Render) :
  (pending w ++ [p]) !! length (pending w) = Some p.
Proof. by rewrite list_lookup_middle. Qed.

Lemma delete_new_pending (w : World) (p : Caller * Render) :
  delete (length (pending w)) (pending w ++ [p]) = pending w.
Proof. rewrite delete_middle. apply app_nil_r. Qed.

Lemma step_start_eq (w : World) :
  isCallActive (ui w) = false →
  step w ClickToggleCall =
  mkWorld
    (mkRender true true (isVideoOn (ui w)) (isScreenSharing (ui w)) (stream (ui w)))
    (ended w) (onended w) (client_call connectCall (client w))
    (connectCall :: client_calls w) (pending w ++ [(ViaToggleCall, ui w)])
    (acquired w).
Proof. intros Ha. unfold step. by rewrite toggleCall_start_eq. Qed.

Lemma toggleScreenShare_stop_eq (w : World) :
  isScreenSharing (ui w) = true →
  step w ClickToggleScreenShare =
  mkWorld (mkRender (isCallActive (ui w)) (isMicOn (ui w)) (isVideoOn (ui w)) false None)
          (tracks_of (stream (ui w)) ∪ ended w) (onended w) (client w)
          (client_calls w) (pending w) (acquired w).
Proof.
  intros Hf. unfold step, dispatch, toggleScreenShare. rewrite Hf.
  by rewrite stopScreenShare_eq.
Qed.

(** The state after start, stop and the late resolution with [s]. *)
Lemma start_stop_settle_eq (w : World) (s : MediaStream) :
  isCallActive (ui w) = false →
  run w [ClickToggleCall; ClickToggleCall;
         DisplayMediaSettled (length (pending w)) (inr s)] =
  mkWorld (mkRender false false false true (Some s))
          (ended (run w [ClickToggleCall; ClickToggleCall]))
          (match getVideoTracks s with
           | t0 :: _ => <[track_id t0 := ui w]> (onended w)
           | [] => onended w
           end)
          Disconnected
          (disconnectCall :: connectCall :: client_calls w)
          (pending w) (s :: acquired w).
Proof.
  intros Ha.
  change (run w [ClickToggleCall; ClickToggleCall;
                 DisplayMediaSettled (length (pending w)) (inr s)])
    with (step (run w [ClickToggleCall; ClickToggleCall])
               (DisplayMediaSettled (length (pending w)) (inr s))).
  change (run w [ClickToggleCall; ClickToggleCall])
    with (step (step w ClickToggleCall) ClickToggleCall).
  rewrite (step_start_eq w Ha). set (w1 := mkWorld _ _ _ _ _ _ _).
  rewrite (toggleCall_stop_eq w1) by reflexivity.
  cbn [w1 ui isScreenSharing stream ended onended client client_calls pending acquired].
  set (w2 := mkWorld _ _ _ _ _ _ _).
  unfold step, dispatch.
  cbn [w2 pending]. rewrite lookup_new_pending.
  unfold bind, take_pending, modify. rewrite resume_eq.
  cbn [snd ui isCallActive isMicOn isVideoOn ended onended client client_calls pending acquired].
  subst w2.
  cbn [ui isCallActive isMicOn isVideoOn ended onended client client_calls pending acquired].
  by rewrite delete_new_pending.
Qed.

(** C2 fails: from the initial state the late capture is kept as the held
    stream and none of its tracks is ended. *)
Lemma late_capture_not_released :
  stream (ui (run initial_world
    [ClickToggleCall; ClickToggleCall; DisplayMediaSettled 0 (inr screen1)])) = Some screen1
  ∧ ended (run initial_world
    [ClickToggleCall; ClickToggleCall; DisplayMediaSettled 0 (inr screen1)]) = ∅
  ∧ ¬ late_capture_released initial_world screen1.
Proof.
  split; [reflexivity|]. split; [vm_compute; reflexivity|].
  intros [Hs _]. vm_compute in Hs. discriminate.
Qed.

(** C2, amended: when start is followed by stop before the capture request
    resolves and the request then resolves with [s], the call stays
    inactive but [s] is retained: [stream] holds it, [isScreenSharing]
    becomes true, and no track is stopped by the resolution.  A click on
    the share button after that releases it: every track of [s] is ended
    and the reference is cleared. *)
Theorem late_capture_retained (w : World) (s : MediaStream) :
  isCallActive (ui w) = false →
  isCallActive (ui (run w [ClickToggleCall; ClickToggleCall;
                           DisplayMediaSettled (length (pending w)) (inr s)])) = false
  ∧ stream (ui (run w [ClickToggleCall; ClickToggleCall;
                       DisplayMediaSettled (length (pending w)) (inr s)])) = Some s
  ∧ isScreenSharing (ui (run w [ClickToggleCall; ClickToggleCall;
                                DisplayMediaSettled (length (pending w)) (inr s)])) = true
  ∧ ended (run w [ClickToggleCall; ClickToggleCall;
                  DisplayMediaSettled (length (pending w)) (inr s)])
    = ended (run w [ClickToggleCall; ClickToggleCall])
  ∧ stream (ui (run w [ClickToggleCall; ClickToggleCall;
                       DisplayMediaSettled (length (pending w)) (inr s);
                       ClickToggleScreenShare])) = None
  ∧ all_ended s (run w [ClickToggleCall; ClickToggleCall;
                        DisplayMediaSettled (length (pending w)) (inr s);
                        ClickToggleScreenShare]).
Proof.
  intros Ha.
  change (run w [ClickToggleCall; ClickToggleCall;
                 DisplayMediaSettled (length (pending w)) (inr s);
                 ClickToggleScreenShare])
    with (step (run w [ClickToggleCall; ClickToggleCall;
                       DisplayMediaSettled (length (pending w)) (inr s)])
               ClickToggleScreenShare).
  rewrite (start_stop_settle_eq w s Ha).
  set (w3 := mkWorld _ _ _ _ _ _ _).
  rewrite (toggleScreenShare_stop_eq w3) by reflexivity.
  repeat split.
  intros t Ht. simpl. apply elem_of_union_l. by apply (elem_of_tracks_of s).
Qed.

Lemma late_capture_retained_witness :
  isCallActive (ui (run initial_world
    [ClickToggleCall; ClickToggleCall; DisplayMediaSettled 0 (inr screen1)])) = false
  ∧ stream (ui (run initial_world
    [ClickToggleCall; ClickToggleCall; DisplayMediaSettled 0 (inr screen1)])) = Some screen1.
Proof.
  pose proof (late_capture_retained initial_world screen1 eq_refl) as (H1 & H2 & _).
  split; [exact H1 | exact H2].
Defined.

(** ** The call flag over time *)

(** C3 fails: a session that was started and stopped is made active again
    by the next [toggleCall]. *)
Lemma stopped_call_restarts :
  reachable started_call
  ∧ isCallActive (ui started_call) = true
  ∧ isCallActive (ui (step started_call ClickToggleCall)) = false
  ∧ isCallActive (ui (run (step started_call ClickToggleCall) [ClickToggleCall])) = true
  ∧ ¬ no_return_after_stop.
Proof.
  assert (Hr : reachable started_call) by apply reach_step, reach_init.
  split; [exact Hr|]. do 3 (split; [reflexivity|]).
  intros H. specialize (H started_call [ClickToggleCall] Hr eq_refl). discriminate H.
Qed.

(** C3, amended: the controller keeps one boolean, [isCallActive], and no
    record that a call has ended.  After a stop, [isCallActive] stays false
    under every operation and event other than [toggleCall], and the next
    [toggleCall] makes the same session active again. *)
Theorem stopped_until_next_toggleCall (w : World) (es : list Event) :
  isCallActive (ui w) = true →
  Forall (λ e, e ≠ ClickToggleCall) es →
  isCallActive (ui (run (step w ClickToggleCall) es)) = false
  ∧ isCallActive (ui (step (run (step w ClickToggleCall) es) ClickToggleCall)) = true.
Proof.
  intros Ha Hes.
  assert (Hoff : isCallActive (ui (run (step w ClickToggleCall) es)) = false).
  { rewrite run_isCallActive by assumption. by rewrite toggleCall_stop_eq. }
  split; [exact Hoff|]. by rewrite step_start_eq.
Qed.

Lemma stopped_until_next_toggleCall_witness :
  isCallActive (ui (run (step started_call ClickToggleCall)
                        [ClickToggleMic; ClickToggleScreenShare])) = false
  ∧ isCallActive (ui (step (run (step started_call ClickToggleCall)
                                [ClickToggleMic; ClickToggleScreenShare])
                           ClickToggleCall)) = true.
Proof.
  apply (stopped_until_next_toggleCall started_call
           [ClickToggleMic; ClickToggleScreenShare]).
  - reflexivity.
  - repeat constructor; discriminate.
Defined.

(** ** Capture refused *)

(** [toggleScreenShare] catches the rejection as [toggleCall] does. *)
Lemma resume_rejected (who : Caller) (env : Render) (e : Exn) (w : World) :
  resume who env (inl e) w = (Normal tt, w).
Proof. by rewrite resume_eq. Qed.

Lemma settle_rejected_eq (w : World) (i : nat) (who : Caller) (env : Render) (e : Exn) :
  pending w !! i = Some (who, env) →
  dispatch w (DisplayMediaSettled i (inl e)) =
  (Normal tt,
   mkWorld (ui w) (ended w) (onended w) (client w) (client_calls w)
           (delete i (pending w)) (acquired w)).
Proof.
  intros Hp. unfold dispatch. rewrite Hp.
  unfold bind, take_pending, modify. by rewrite resume_rejected.
Qed.

(** C4: when the capture request made by start is rejected, the handler
    ends normally (the exception [startScreenShare] rethrows is caught in
    [toggleCall]), the call is active with the microphone on,
    [connect()] is the last call made on the transcription client, and the
    screen-share state ([isScreenSharing], [stream], the tracks) is what it
    was before start: inactive if it was inactive. *)
Theorem start_survives_capture_failure (w : World) (e : Exn) :
  isCallActive (ui w) = false →
  fst (dispatch w ClickToggleCall) = Normal tt
  ∧ startScreenShare (ui w) (inl e) (step w ClickToggleCall)
    = (Thrown e, step w ClickToggleCall)
  ∧ fst (dispatch (step w ClickToggleCall)
                  (DisplayMediaSettled (length (pending w)) (inl e))) = Normal tt
  ∧ isCallActive (ui (run w [ClickToggleCall;
        DisplayMediaSettled (length (pending w)) (inl e)])) = true
  ∧ isMicOn (ui (run w [ClickToggleCall;
        DisplayMediaSettled (length (pending w)) (inl e)])) = true
  ∧ head (client_calls (run w [ClickToggleCall;
        DisplayMediaSettled (length (pending w)) (inl e)])) = Some connectCall
  ∧ isScreenSharing (ui (run w [ClickToggleCall;
        DisplayMediaSettled (length (pending w)) (inl e)])) = isScreenSharing (ui w)
  ∧ stream (ui (run w [ClickToggleCall;
        DisplayMediaSettled (length (pending w)) (inl e)])) = stream (ui w)
  ∧ ended (run w [ClickToggleCall;
        DisplayMediaSettled (length (pending w)) (inl e)]) = ended w
  ∧ pending (run w [ClickToggleCall;
        DisplayMediaSettled (length (pending w)) (inl e)]) = pending w.
Proof.
  intros Ha.
  change (run w [ClickToggleCall; DisplayMediaSettled (length (pending w)) (inl e)])
    with (step (step w ClickToggleCall) (DisplayMediaSettled (length (pending w)) (inl e))).
  split; [by rewrite toggleCall_start_eq|].
  split; [reflexivity|].
  rewrite (step_start_eq w Ha). set (w1 := mkWorld _ _ _ _ _ _ _).
  assert (Hp : pending w1 !! length (pending w) = Some (ViaToggleCall, ui w))
    by apply lookup_new_pending.
  unfold step. rewrite (settle_rejected_eq w1 _ _ _ e Hp).
  cbn [fst snd w1 ui isCallActive isMicOn isScreenSharing stream ended client_calls pending].
  rewrite delete_new_pending. repeat split.
Qed.

Lemma start_survives_capture_failure_witness :
  fst (dispatch (step initial_world ClickToggleCall)
                (DisplayMediaSettled 0 (inl "NotAllowedError"))) = Normal tt
  ∧ isCallActive (ui (run initial_world [ClickToggleCall;
        DisplayMediaSettled 0 (inl "NotAllowedError")])) = true
  ∧ isScreenSharing (ui (run initial_world [ClickToggleCall;
        DisplayMediaSettled 0 (inl "NotAllowedError")])) = false.
Proof.
  pose proof (start_survives_capture_failure initial_world "NotAllowedError" eq_refl)
    as (_ & _ & H1 & H2 & _ & _ & H3 & _).
  split; [exact H1 | split; [exact H2 | exact H3]].
Defined.

(** ** The capture ends outside the page *)

(** The [ended] handler of a track runs the [stopScreenShare] of the render
    that requested the capture: the tracks it stops are those of that
    render's [stream], not those of the stream held now. *)
Lemma track_ended_eq (w : World) (t : nat) (env : Render) :
  t ∉ ended w →
  onended w !! t = Some env →
  step w (TrackEnded t) =
  mkWorld (mkRender (isCallActive (ui w)) (isMicOn (ui w)) (isVideoOn (ui w)) false None)
          (tracks_of (stream env) ∪ ({[t]} ∪ ended w)) (onended w) (client w)
          (client_calls w) (pending w) (acquired w).
Proof.
  intros Ht Hh. unfold step, dispatch. rewrite decide_False by assumption.
  rewrite Hh. unfold bind, source_ended, modify. by rewrite stopScreenShare_eq.
Qed.

(** C5 at a granted capture with a video and an audio track: the handler
    of the video track belongs to the render that started the call, whose
    [stream] is [null].  When the video track ends, [isScreenSharing]
    becomes false and the reference is cleared, but the audio track of the
    held stream is not stopped. *)
Theorem track_ended_leaves_audio_live :
  stream (ui sharing_call) = Some screen1
  ∧ onended sharing_call !! 1 = Some initial_render
  ∧ isScreenSharing (ui (step sharing_call (TrackEnded 1))) = false
  ∧ stream (ui (step sharing_call (TrackEnded 1))) = None
  ∧ 1 ∈ ended (step sharing_call (TrackEnded 1))
  ∧ 2 ∉ ended (step sharing_call (TrackEnded 1)).
Proof.
  assert (Hh : onended sharing_call !! 1 = Some initial_render) by reflexivity.
  assert (He : ended sharing_call = ∅) by reflexivity.
  split; [reflexivity|]. split; [exact Hh|].
  rewrite (track_ended_eq sharing_call 1 initial_render) by (rewrite ?He; set_solver).
  rewrite He. simpl. repeat split; set_solver.
Qed.

(** ** Single ownership of the capture *)

(** A state that holds [screen2] after having acquired [screen1] too,
    with no track ended, has two live captures. *)
Lemma two_live_captures (w : World) :
  acquired w = [screen2; screen1] →
  stream (ui w) = Some screen2 →
  ended w = ∅ →
  ¬ single_owner w.
Proof.
  intros Ha Hs He Hso. destruct (Hso screen1) as [Hheld|Hend].
  - rewrite Ha. set_solver.
  - rewrite Hs in Hheld. discriminate Hheld.
  - specialize (Hend (mkTrack 1 video)). rewrite He in Hend.
    apply (not_elem_of_empty (C:=gset nat) 1), Hend. simpl. set_solver.
Qed.

(** C6 fails: [startScreenShare] run while a capture is held replaces the
    reference without stopping the capture held before. *)
Lemma start_twice_keeps_two_captures :
  ¬ single_owner (run_ops initial_world
      [OpStartScreenShare (inr screen1); OpStartScreenShare (inr screen2)])
  ∧ ¬ acquires_only_when_free initial_world
      [OpStartScreenShare (inr screen1); OpStartScreenShare (inr screen2)]
  ∧ ¬ single_owner_always.
Proof.
  assert (H1 : ¬ single_owner (run_ops initial_world
      [OpStartScreenShare (inr screen1); OpStartScreenShare (inr screen2)])).
  { apply two_live_captures; vm_compute; reflexivity. }
  split; [exact H1|]. split.
  - intros (_ & Hacq & _). destruct Hacq as [Hs _]; [unfold acquires; simpl; lia|].
    discriminate Hs.
  - intros H. apply H1, H.
Qed.

(** The same happens from the page: sharing first and starting the call
    next acquires a second capture over the first. *)
Lemma start_call_while_sharing_leaks :
  ¬ single_owner (run initial_world
      [ClickToggleScreenShare; DisplayMediaSettled 0 (inr screen1);
       ClickToggleCall; DisplayMediaSettled 0 (inr screen2)]).
Proof. apply two_live_captures; vm_compute; reflexivity. Qed.

Lemma toggle_op_eq (w : World) (r : Exn + MediaStream) :
  run_op w (OpToggleScreenShare r) =
  if isScreenSharing (ui w) then snd (stopScreenShare (ui w) w)
  else snd (resume ViaToggleScreenShare (ui w) r w).
Proof.
  unfold run_op, settled_at_once. destruct (isScreenSharing (ui w)) eqn:Hf.
  - rewrite toggleScreenShare_stop_eq by assumption. simpl.
    rewrite Nat.ltb_irrefl. by rewrite stopScreenShare_eq.
  - assert (Hs : step w ClickToggleScreenShare =
        mkWorld (ui w) (ended w) (onended w) (client w) (client_calls w)
                (pending w ++ [(ViaToggleScreenShare, ui w)]) (acquired w)).
    { unfold step, dispatch, toggleScreenShare. by rewrite Hf. }
    rewrite Hs. cbn [pending]. rewrite length_app. simpl.
    replace (length (pending w) <? length (pending w) + 1) with true
      by (symmetry; apply Nat.ltb_lt; lia).
    unfold step, dispatch. cbn [pending]. rewrite lookup_new_pending.
    unfold bind, take_pending, modify. cbn [ui ended onended client client_calls pending acquired].
    rewrite delete_new_pending. by destruct w.
Qed.

(** A rejected capture request made by [toggleScreenShare] is caught there
    and leaves the state as it was. *)
Lemma toggleScreenShare_survives_capture_failure (w : World) (e : Exn) :
  isScreenSharing (ui w) = false →
  run_op w (OpToggleScreenShare (inl e)) = w.
Proof. intros Hf. rewrite toggle_op_eq, Hf. by rewrite resume_rejected. Qed.

Lemma stop_op_single_owner (w : World) :
  single_owner w → single_owner (snd (stopScreenShare (ui w) w)).
Proof.
  intros Hso s Hs. rewrite stopScreenShare_eq in *. simpl in *. right.
  intros t Ht. destruct (Hso s Hs) as [Hheld|Hend].
  - rewrite Hheld. apply elem_of_union_l. by apply (elem_of_tracks_of s).
  - apply elem_of_union_r. by apply Hend.
Qed.

Lemma stop_op_coherent (w : World) : coherent (ui (snd (stopScreenShare (ui w) w))).
Proof. by rewrite stopScreenShare_eq. Qed.

Lemma guarded_op_invariant (w : World) (o : Op) :
  guarded o → coherent (ui w) → single_owner w →
  single_owner (run_op w o) ∧ coherent (ui (run_op w o))
  ∧ (acquires w o → stream (ui w) = None ∧ ∀ s, s ∈ acquired w → all_ended s w).
Proof.
  intros Hg Hc Hso. destruct o as [r| |]; [| destruct Hg |].
  - rewrite toggle_op_eq. unfold acquires. rewrite toggle_op_eq.
    destruct (isScreenSharing (ui w)) eqn:Hf.
    + split; [by apply stop_op_single_owner|]. split; [apply stop_op_coherent|].
      rewrite stopScreenShare_eq. simpl. lia.
    + assert (Hnone : stream (ui w) = None).
      { unfold coherent in Hc. destruct (stream (ui w)); congruence. }
      assert (Hold : ∀ s, s ∈ acquired w → all_ended s w).
      { intros s Hs. destruct (Hso s Hs) as [Hh|He]; [congruence | exact He]. }
      rewrite resume_eq. destruct r as [e|s]; simpl.
      * split; [exact Hso|]. split; [exact Hc|]. lia.
      * split; [|split; [reflexivity | by intros _]].
        intros s' [->|Hs']%elem_of_cons; [by left|]. right. by apply Hold.
  - unfold acquires, run_op.
    split; [by apply stop_op_single_owner|]. split; [apply stop_op_coherent|].
    rewrite stopScreenShare_eq. simpl. lia.
Qed.

(** C6, amended: over every sequence of [toggleScreenShare] and
    [stopScreenShare] in which each capture request settles before the next
    operation, at most one capture is live (every capture ever acquired is
    the held one or has all its tracks ended), and a capture is acquired
    only when nothing is held and every earlier capture is stopped.  The
    test is [toggleScreenShare]'s; [startScreenShare] itself stops
    nothing. *)
Theorem toggle_sequences_keep_single_owner (os : list Op) (w : World) :
  coherent (ui w) → single_owner w → Forall guarded os →
  single_owner (run_ops w os)
  ∧ coherent (ui (run_ops w os))
  ∧ acquires_only_when_free w os.
Proof.
  revert w. induction os as [|o os IH]; intros w Hc Hso Hg.
  - simpl. done.
  - inversion Hg as [|? ? Ho Hos]; subst.
    destruct (guarded_op_invariant w o Ho Hc Hso) as (Hso' & Hc' & Hacq).
    destruct (IH (run_op w o) Hc' Hso' Hos) as (H1 & H2 & H3).
    simpl. done.
Qed.

Lemma toggle_sequences_keep_single_owner_witness :
  single_owner (run_ops initial_world
    [OpToggleScreenShare (inr screen1); OpToggleScreenShare (inl "AbortError");
     OpToggleScreenShare (inr screen2); OpStopScreenShare])
  ∧ coherent (ui (run_ops initial_world
    [OpToggleScreenShare (inr screen1); OpToggleScreenShare (inl "AbortError");
     OpToggleScreenShare (inr screen2); OpStopScreenShare]))
  ∧ acquires_only_when_free initial_world
    [OpToggleScreenShare (inr screen1); OpToggleScreenShare (inl "AbortError");
     OpToggleScreenShare (inr screen2); OpStopScreenShare].
Proof.
  apply (toggle_sequences_keep_single_owner _ initial_world).
  - reflexivity.
  - intros s Hs. simpl in Hs. by apply elem_of_nil in Hs.
  - repeat constructor.
Defined.

(** ** The displayed emotion and interest *)

Lemma length_sort_insert {A} (cmp : A → A → Z) (x : A) (l : list A) :
  length (sort_insert cmp x l) = S (length l).
Proof.
  induction l as [|y l IH]; simpl; [done|].
  destruct (cmp x y <=? 0)%Z; simpl; by rewrite ?IH.
Qed.

(** The sorted copy has the length of the array, so [[0]] of a non-empty
    array's copy is defined. *)
Lemma length_sort {A} (cmp : A → A → Z) (l : list A) :
  length (sort cmp l) = length l.
Proof.
  induction l as [|x l IH]; simpl; [done|]. by rewrite length_sort_insert, IH.
Qed.

(** Among entries of equal level the one listed first is displayed. *)
Example currentEmotion_tie :
  currentEmotion (Some (mkInsights
    (Some [mkEmotion "Interest" 75; mkEmotion "Confusion" 90; mkEmotion "Joy" 90])))
  = "Confusion".
Proof. reflexivity. Qed.

(** The first element of the sorted copy is an element of the array with
    the greatest level. *)
Lemma sort_head_max (es : list EmotionEntry) :
  es ≠ [] →
  ∃ e rest, sort by_level_desc es = e :: rest
            ∧ e ∈ es
            ∧ ∀ e', e' ∈ es → (level e' ≤ level e)%Z.
Proof.
  induction es as [|x es IH]; [done|]. intros _.
  destruct es as [|y es'].
  - exists x, []. simpl. split; [done|]. split; [set_solver|].
    intros e' ->%list_elem_of_singleton. lia.
  - destruct IH as (e & rest & Hsort & Hin & Hmax); [done|].
    change (sort by_level_desc (x :: y :: es'))
      with (sort_insert by_level_desc x (sort by_level_desc (y :: es'))).
    rewrite Hsort. simpl. unfold by_level_desc at 1.
    destruct (level e - level x <=? 0)%Z eqn:Hc.
    + apply Z.leb_le in Hc. exists x, (e :: rest).
      split; [done|]. split; [set_solver|].
      intros e' [->|He']%elem_of_cons; [lia|]. specialize (Hmax e' He'). lia.
    + apply Z.leb_gt in Hc. eexists e, _.
      split; [done|]. split; [set_solver|].
      intros e' [->|He']%elem_of_cons; [lia|]. by apply Hmax.
Qed.

(** C7: for a published result whose emotions array is not empty, the
    displayed emotion is the name of an entry whose level no entry exceeds;
    before any result is published, or when the array is empty or absent,
    it is "Interested". *)
Theorem currentEmotion_highest_level (p : Phi3Insights) (es : list EmotionEntry) :
  emotions p = Some es →
  (es ≠ [] →
   ∃ e, e ∈ es
        ∧ currentEmotion (Some p) = emotion e
        ∧ ∀ e', e' ∈ es → (level e' ≤ level e)%Z)
  ∧ (es = [] → currentEmotion (Some p) = "Interested")
  ∧ currentEmotion None = "Interested"
  ∧ currentEmotion (Some (mkInsights None)) = "Interested".
Proof.
  intros Hes. unfold currentEmotion. rewrite Hes.
  split; [|split; [by intros ->|done]].
  intros Hne. destruct (sort_head_max es Hne) as (e & rest & Hsort & Hin & Hmax).
  exists e. rewrite Hsort.
  destruct es; [done|]. simpl. done.
Qed.

Lemma currentEmotion_highest_level_witness :
  ∃ e, e ∈ [mkEmotion "Interest" 75; mkEmotion "Confusion" 90; mkEmotion "Joy" 90]
       ∧ currentEmotion (Some (mkInsights
           (Some [mkEmotion "Interest" 75; mkEmotion "Confusion" 90; mkEmotion "Joy" 90])))
         = emotion e
       ∧ ∀ e', e' ∈ [mkEmotion "Interest" 75; mkEmotion "Confusion" 90; mkEmotion "Joy" 90]
               → (level e' ≤ level e)%Z.
Proof.
  apply (currentEmotion_highest_level
           (mkInsights (Some [mkEmotion "Interest" 75; mkEmotion "Confusion" 90;
                              mkEmotion "Joy" 90])) _ eq_refl).
  discriminate.
Defined.

Lemma find_first_named (name : string) (pre post : list EmotionEntry) (e : EmotionEntry) :
  Forall (λ x, emotion x ≠ name) pre →
  emotion e = name →
  List.find (λ x, String.eqb (emotion x) name) (pre ++ e :: post) = Some e.
Proof.
  intros Hpre He. induction Hpre as [|x pre Hx _ IH]; simpl.
  - by rewrite He, String.eqb_refl.
  - apply String.eqb_neq in Hx. by rewrite Hx.
Qed.

Lemma find_none_named (name : string) (es : list EmotionEntry) :
  Forall (λ x, emotion x ≠ name) es →
  List.find (λ x, String.eqb (emotion x) name) es = None.
Proof.
  induction 1 as [|x es Hx _ IH]; simpl; [done|].
  apply String.eqb_neq in Hx. by rewrite Hx.
Qed.

(** C8: for a published result, the displayed interest is the level of the
    entry named "Interest" (the first one, should there be several) when
    that level is not zero, and 75 when it is zero or there is no such
    entry; so an entry "Interest" with level 0 displays 75, and the
    displayed interest is never 0. *)
Theorem clientInterest_level_or_75 (p : Phi3Insights) (es : list EmotionEntry) :
  emotions p = Some es →
  (∀ pre e post,
      es = pre ++ e :: post →
      Forall (λ x, emotion x ≠ "Interest") pre →
      emotion e = "Interest" →
      clientInterest (Some p) = if decide (level e = 0%Z) then 75%Z else level e)
  ∧ (Forall (λ x, emotion x ≠ "Interest") es → clientInterest (Some p) = 75%Z)
  ∧ (mkEmotion "Interest" 0 ∈ es → NoDup (emotion <$> es) →
     clientInterest (Some p) = 75%Z)
  ∧ clientInterest (Some p) ≠ 0%Z.
Proof.
  intros Hes. unfold clientInterest. simpl. rewrite Hes. simpl.
  assert (Hfirst : ∀ pre e post,
      es = pre ++ e :: post →
      Forall (λ x, emotion x ≠ "Interest") pre →
      emotion e = "Interest" →
      or_default (e ← List.find (λ e, String.eqb (emotion e) "Interest") es; Some (level e)) 75
      = if decide (level e = 0%Z) then 75%Z else level e).
  { intros pre e post -> Hpre He. rewrite find_first_named by assumption. simpl.
    destruct (Z.eqb_spec (level e) 0); by case_decide. }
  split; [exact Hfirst|]. split; [|split].
  - intros Hnone. by rewrite find_none_named.
  - intros Hin Hnd. apply list_elem_of_split in Hin as (pre & post & ->).
    rewrite (Hfirst pre (mkEmotion "Interest" 0) post); [done|done| |done].
    rewrite fmap_app, fmap_cons in Hnd. apply NoDup_app in Hnd as (_ & Hdis & _).
    apply Forall_forall. intros x Hx Heq. apply (Hdis (emotion x)).
    + apply list_elem_of_fmap. eauto.
    + rewrite Heq. simpl. set_solver.
  - destruct (List.find _ es) as [e|]; simpl; [|done].
    destruct (Z.eqb_spec (level e) 0); [done|assumption].
Qed.

Lemma clientInterest_level_or_75_witness :
  clientInterest (Some (mkInsights
    (Some [mkEmotion "Confusion" 90; mkEmotion "Interest" 0]))) = 75%Z.
Proof.
  pose proof (clientInterest_level_or_75
    (mkInsights (Some [mkEmotion "Confusion" 90; mkEmotion "Interest" 0])) _ eq_refl)
    as (H & _).
  apply (H [mkEmotion "Confusion" 90] (mkEmotion "Interest" 0) []).
  - reflexivity.
  - repeat constructor. discriminate.
  - reflexivity.
Defined.

Lemma clientInterest_unpublished : clientInterest None = 75%Z.
Proof. reflexivity. Qed.

(** ** Further properties of the session controller *)

Lemma toggleScreenShare_request_eq (w : World) :
  isScreenSharing (ui w) = false →
  step w ClickToggleScreenShare =
  mkWorld (ui w) (ended w) (onended w) (client w) (client_calls w)
          (pending w ++ [(ViaToggleScreenShare, ui w)]) (acquired w).
Proof. intros Hf. unfold step, dispatch, toggleScreenShare. by rewrite Hf. Qed.

Lemma settle_resolved_eq (w : World) (i : nat) (who : Caller) (env : Render)
    (s : MediaStream) :
  pending w !! i = Some (who, env) →
  step w (DisplayMediaSettled i (inr s)) =
  mkWorld (mkRender (isCallActive (ui w)) (isMicOn (ui w)) (isVideoOn (ui w)) true (Some s))
          (ended w)
          (match getVideoTracks s with
           | t0 :: _ => <[track_id t0 := env]> (onended w)
           | [] => onended w
           end)
          (client w) (client_calls w) (delete i (pending w)) (s :: acquired w).
Proof.
  intros Hp. unfold step, dispatch. rewrite Hp.
  unfold bind, take_pending, modify. by rewrite resume_eq.
Qed.

Lemma step_frame (w : World) (e : Event) :
  e ≠ ClickToggleCall → e ≠ ClickToggleMic → e ≠ ClickToggleVideo →
  isMicOn (ui (step w e)) = isMicOn (ui w)
  ∧ isVideoOn (ui (step w e)) = isVideoOn (ui w)
  ∧ client_calls (step w e) = client_calls w.
Proof.
  intros Hc Hm Hv. unfold step, dispatch.
  destruct e as [| | | |i r|t|n]; try congruence; js_unfold; simpl.
  - destruct (isScreenSharing (ui w)); [rewrite stopScreenShare_eq|]; done.
  - destruct (pending w !! i) as [[who env]|]; [|done].
    rewrite resume_eq. by destruct r.
  - destruct (decide (t ∈ ended w)); [done|].
    destruct (onended w !! t); [rewrite stopScreenShare_eq|]; done.
  - done.
Qed.

Lemma step_client_calls (w : World) (e : Event) :
  e ≠ ClickToggleCall → client_calls (step w e) = client_calls w.
Proof.
  intros Hc. destruct (decide (e = ClickToggleMic)) as [->|Hm]; [done|].
  destruct (decide (e = ClickToggleVideo)) as [->|Hv]; [done|].
  by apply step_frame.
Qed.

(** X1: in every state the page can reach, [isScreenSharing] is true
    exactly when a stream is held. *)
Theorem flag_matches_stream (w : World) :
  reachable w →
  isScreenSharing (ui w) = true ↔ is_Some (stream (ui w)).
Proof.
  intros Hr. pose proof (reachable_coherent w Hr) as Hc. unfold coherent in Hc.
  destruct (stream (ui w)) as [s|]; rewrite Hc; split; done.
Qed.

Lemma flag_matches_stream_witness :
  isScreenSharing (ui sharing_call) = true ↔ is_Some (stream (ui sharing_call)).
Proof.
  apply (flag_matches_stream sharing_call).
  exact (reach_step _ _ (reach_step _ _ reach_init)).
Defined.

(** X2: in every reachable state the call is active exactly when the last
    call made on the transcription hook is [connect()]: the controller
    never leaves a connection requested for an inactive call, nor an
    active call without one. *)
Theorem call_flag_matches_last_client_call (w : World) :
  reachable w →
  isCallActive (ui w) = true ↔ head (client_calls w) = Some connectCall.
Proof.
  induction 1 as [|w e Hr IH]; [done|].
  destruct (decide (e = ClickToggleCall)) as [->|Hne].
  - destruct (isCallActive (ui w)) eqn:Ha.
    + rewrite toggleCall_stop_eq by assumption. simpl. done.
    + rewrite step_start_eq by assumption. simpl. done.
  - by rewrite step_isCallActive, step_client_calls.
Qed.

Lemma call_flag_matches_last_client_call_witness :
  isCallActive (ui sharing_call) = true ↔ head (client_calls sharing_call) = Some connectCall.
Proof.
  apply (call_flag_matches_last_client_call sharing_call).
  exact (reach_step _ _ (reach_step _ _ reach_init)).
Defined.

(** X3: a click on the share button, the settling of a capture request,
    the end of a track and a network change leave [isCallActive],
    [isMicOn] and [isVideoOn] as they are and make no call on the
    transcription hook. *)
Theorem sharing_and_environment_frame (w : World) (e : Event) :
  e ≠ ClickToggleCall → e ≠ ClickToggleMic → e ≠ ClickToggleVideo →
  isCallActive (ui (step w e)) = isCallActive (ui w)
  ∧ isMicOn (ui (step w e)) = isMicOn (ui w)
  ∧ isVideoOn (ui (step w e)) = isVideoOn (ui w)
  ∧ client_calls (step w e) = client_calls w.
Proof.
  intros Hc Hm Hv. split; [by apply step_isCallActive | by apply step_frame].
Qed.

Lemma sharing_and_environment_frame_witness :
  isCallActive (ui (step sharing_call (TrackEnded 1))) = isCallActive (ui sharing_call)
  ∧ isMicOn (ui (step sharing_call (TrackEnded 1))) = isMicOn (ui sharing_call)
  ∧ isVideoOn (ui (step sharing_call (TrackEnded 1))) = isVideoOn (ui sharing_call)
  ∧ client_calls (step sharing_call (TrackEnded 1)) = client_calls sharing_call.
Proof.
  apply (sharing_and_environment_frame sharing_call (TrackEnded 1)); discriminate.
Defined.

(** X4: two clicks on the microphone button, or two on the camera button,
    restore the state they started from, and a click on each gives the
    same state in either order. *)
Theorem toggles_cancel_and_commute (w : World) :
  run w [ClickToggleMic; ClickToggleMic] = w
  ∧ run w [ClickToggleVideo; ClickToggleVideo] = w
  ∧ run w [ClickToggleMic; ClickToggleVideo] = run w [ClickToggleVideo; ClickToggleMic].
Proof.
  destruct w as [[c m v f s] e o cl cc p a].
  unfold run, step, dispatch, toggleMic, toggleVideo. js_unfold. simpl.
  by rewrite !negb_involutive.
Qed.

(** X5: in every reachable state where the screen is shared, a click on
    the share button ends every track of the held stream, clears the
    reference and the flag, makes no capture request, and leaves the call,
    microphone and camera flags alone. *)
Theorem toggleScreenShare_releases (w : World) :
  reachable w →
  isScreenSharing (ui w) = true →
  ∃ s, stream (ui w) = Some s
       ∧ all_ended s (step w ClickToggleScreenShare)
       ∧ stream (ui (step w ClickToggleScreenShare)) = None
       ∧ isScreenSharing (ui (step w ClickToggleScreenShare)) = false
       ∧ pending (step w ClickToggleScreenShare) = pending w
       ∧ acquired (step w ClickToggleScreenShare) = acquired w
       ∧ isCallActive (ui (step w ClickToggleScreenShare)) = isCallActive (ui w)
       ∧ isMicOn (ui (step w ClickToggleScreenShare)) = isMicOn (ui w)
       ∧ isVideoOn (ui (step w ClickToggleScreenShare)) = isVideoOn (ui w).
Proof.
  intros Hr Hf. pose proof (reachable_coherent w Hr) as Hc. unfold coherent in Hc.
  destruct (stream (ui w)) as [s|] eqn:Hs; [|congruence].
  exists s. rewrite toggleScreenShare_stop_eq by assumption. simpl.
  split; [done|]. split; [|done].
  intros t Ht. simpl. rewrite Hs. apply elem_of_union_l. by apply (elem_of_tracks_of s).
Qed.

Lemma toggleScreenShare_releases_witness :
  ∃ s, stream (ui sharing_call) = Some s
       ∧ all_ended s (step sharing_call ClickToggleScreenShare)
       ∧ stream (ui (step sharing_call ClickToggleScreenShare)) = None
       ∧ isScreenSharing (ui (step sharing_call ClickToggleScreenShare)) = false
       ∧ pending (step sharing_call ClickToggleScreenShare) = pending sharing_call
       ∧ acquired (step sharing_call ClickToggleScreenShare) = acquired sharing_call
       ∧ isCallActive (ui (step sharing_call ClickToggleScreenShare))
         = isCallActive (ui sharing_call)
       ∧ isMicOn (ui (step sharing_call ClickToggleScreenShare)) = isMicOn (ui sharing_call)
       ∧ isVideoOn (ui (step sharing_call ClickToggleScreenShare))
         = isVideoOn (ui sharing_call).
Proof.
  apply (toggleScreenShare_releases sharing_call).
  - exact (reach_step _ _ (reach_step _ _ reach_init)).
  - reflexivity.
Defined.

(** X6: from a state where nothing is shared, sharing (the capture being
    granted with [s]) and then clicking the share button again brings the
    component state back to what it was, with every track of [s] ended;
    the second click stops and makes no new capture request. *)
Theorem share_then_unshare_round_trip (w : World) (s : MediaStream)
    (r : Exn + MediaStream) :
  coherent (ui w) →
  isScreenSharing (ui w) = false →
  ui (run_ops w [OpToggleScreenShare (inr s); OpToggleScreenShare r]) = ui w
  ∧ all_ended s (run_ops w [OpToggleScreenShare (inr s); OpToggleScreenShare r])
  ∧ ended (run_ops w [OpToggleScreenShare (inr s); OpToggleScreenShare r])
    = tracks_of (Some s) ∪ ended w
  ∧ pending (run_ops w [OpToggleScreenShare (inr s); OpToggleScreenShare r]) = pending w
  ∧ acquired (run_ops w [OpToggleScreenShare (inr s); OpToggleScreenShare r])
    = s :: acquired w.
Proof.
  intros Hc Hf. unfold run_ops. cbn [foldl].
  assert (H1 : run_op w (OpToggleScreenShare (inr s)) =
    mkWorld (mkRender (isCallActive (ui w)) (isMicOn (ui w)) (isVideoOn (ui w)) true (Some s))
            (ended w)
            (match getVideoTracks s with
             | t0 :: _ => <[track_id t0 := ui w]> (onended w)
             | [] => onended w
             end)
            (client w) (client_calls w) (pending w) (s :: acquired w)).
  { rewrite toggle_op_eq, Hf. by rewrite resume_eq. }
  rewrite H1. rewrite toggle_op_eq. cbn [ui isScreenSharing].
  rewrite stopScreenShare_eq. cbn [snd ui ended pending acquired stream
    isCallActive isMicOn isVideoOn].
  split; [|split; [|done]].
  - unfold coherent in Hc. destruct (ui w) as [c m v f o]. simpl in *. subst f.
    destruct o; [discriminate|done].
  - intros t Ht. simpl. apply elem_of_union_l. by apply (elem_of_tracks_of s).
Qed.

Lemma share_then_unshare_round_trip_witness :
  ui (run_ops initial_world
        [OpToggleScreenShare (inr screen1); OpToggleScreenShare (inr screen2)])
  = ui initial_world
  ∧ all_ended screen1 (run_ops initial_world
        [OpToggleScreenShare (inr screen1); OpToggleScreenShare (inr screen2)]).
Proof.
  pose proof (share_then_unshare_round_trip initial_world screen1 (inr screen2)
                eq_refl eq_refl) as (H1 & H2 & _).
  split; [exact H1 | exact H2].
Defined.

Lemma lookup_after (l : list (Caller * Render)) (p q : Caller * Render) :
  (l ++ [p] ++ [q]) !! length l = Some p.
Proof. by apply list_lookup_middle. Qed.

Lemma delete_after (l : list (Caller * Render)) (p q : Caller * Render) :
  delete (length l) (l ++ [p] ++ [q]) = l ++ [q].
Proof. apply (delete_middle l [q] p). Qed.

(** X7: the share button tests the flag of its render, not whether a
    request is already pending.  Two clicks before the first request
    settles make two requests; when both are granted the second capture
    replaces the first as the held stream and no track of either is
    stopped. *)
Theorem double_click_requests_two_captures (w : World) (s1 s2 : MediaStream) :
  isScreenSharing (ui w) = false →
  pending (run w [ClickToggleScreenShare; ClickToggleScreenShare])
    = pending w ++ [(ViaToggleScreenShare, ui w)] ++ [(ViaToggleScreenShare, ui w)]
  ∧ stream (ui (run w [ClickToggleScreenShare; ClickToggleScreenShare;
                       DisplayMediaSettled (length (pending w)) (inr s1);
                       DisplayMediaSettled (length (pending w)) (inr s2)])) = Some s2
  ∧ acquired (run w [ClickToggleScreenShare; ClickToggleScreenShare;
                     DisplayMediaSettled (length (pending w)) (inr s1);
                     DisplayMediaSettled (length (pending w)) (inr s2)])
    = s2 :: s1 :: acquired w
  ∧ ended (run w [ClickToggleScreenShare; ClickToggleScreenShare;
                  DisplayMediaSettled (length (pending w)) (inr s1);
                  DisplayMediaSettled (length (pending w)) (inr s2)]) = ended w
  ∧ pending (run w [ClickToggleScreenShare; ClickToggleScreenShare;
                    DisplayMediaSettled (length (pending w)) (inr s1);
                    DisplayMediaSettled (length (pending w)) (inr s2)]) = pending w.
Proof.
  intros Hf. unfold run. cbn [foldl].
  rewrite (toggleScreenShare_request_eq w Hf). set (w1 := mkWorld _ _ _ _ _ _ _).
  rewrite (toggleScreenShare_request_eq w1 Hf).
  cbn [w1 ui ended onended client client_calls pending acquired].
  rewrite <- app_assoc. split; [done|].
  set (w2 := mkWorld _ _ _ _ _ _ _).
  rewrite (settle_resolved_eq w2 _ ViaToggleScreenShare (ui w) s1)
    by apply lookup_after.
  cbn [w2 ui ended onended client client_calls pending acquired
       isCallActive isMicOn isVideoOn].
  rewrite delete_after. set (w3 := mkWorld _ _ _ _ _ _ _).
  rewrite (settle_resolved_eq w3 _ ViaToggleScreenShare (ui w) s2)
    by (subst w3; cbn [pending]; by apply list_lookup_middle).
  cbn [w3 ui ended pending acquired stream]. by rewrite delete_middle, app_nil_r.
Qed.

Lemma double_click_requests_two_captures_witness :
  stream (ui (run initial_world [ClickToggleScreenShare; ClickToggleScreenShare;
                DisplayMediaSettled 0 (inr screen1);
                DisplayMediaSettled 0 (inr screen2)])) = Some screen2
  ∧ acquired (run initial_world [ClickToggleScreenShare; ClickToggleScreenShare;
                DisplayMediaSettled 0 (inr screen1);
                DisplayMediaSettled 0 (inr screen2)]) = [screen2; screen1].
Proof.
  pose proof (double_click_requests_two_captures initial_world screen1 screen2 eq_refl)
    as (_ & H1 & H2 & _).
  split; [exact H1 | exact H2].
Defined.

(** X8: starting the call while a stream is held acquires over it: when
    the request made by start is granted with [s], [s] becomes the held
    stream and no track is stopped, and a following stop ends the tracks
    of [s] only. *)
Theorem start_while_sharing_replaces_stream (w : World) (s0 s : MediaStream) :
  isCallActive (ui w) = false →
  stream (ui w) = Some s0 →
  stream (ui (run w [ClickToggleCall;
                     DisplayMediaSettled (length (pending w)) (inr s)])) = Some s
  ∧ ended (run w [ClickToggleCall;
                  DisplayMediaSettled (length (pending w)) (inr s)]) = ended w
  ∧ acquired (run w [ClickToggleCall;
                     DisplayMediaSettled (length (pending w)) (inr s)]) = s :: acquired w
  ∧ ended (run w [ClickToggleCall;
                  DisplayMediaSettled (length (pending w)) (inr s);
                  ClickToggleCall]) = tracks_of (Some s) ∪ ended w.
Proof.
  intros Ha Hs. unfold run. cbn [foldl].
  rewrite (step_start_eq w Ha). set (w1 := mkWorld _ _ _ _ _ _ _).
  rewrite (settle_resolved_eq w1 _ ViaToggleCall (ui w) s) by apply lookup_new_pending.
  cbn [w1 ui ended onended client client_calls pending acquired
       isCallActive isMicOn isVideoOn stream].
  do 3 (split; [done|]).
  set (w2 := mkWorld _ _ _ _ _ _ _).
  by rewrite (toggleCall_stop_eq w2).
Qed.

Lemma start_while_sharing_replaces_stream_witness :
  stream (ui (run (run_op initial_world (OpToggleScreenShare (inr screen1)))
                  [ClickToggleCall; DisplayMediaSettled 0 (inr screen2)])) = Some screen2
  ∧ ended (run (run_op initial_world (OpToggleScreenShare (inr screen1)))
               [ClickToggleCall; DisplayMediaSettled 0 (inr screen2)])
    = ended (run_op initial_world (OpToggleScreenShare (inr screen1))).
Proof.
  pose proof (start_while_sharing_replaces_stream
                (run_op initial_world (OpToggleScreenShare (inr screen1)))
                screen1 screen2 eq_refl eq_refl) as (H1 & H2 & _).
  split; [exact H1 | exact H2].
Defined.

(** X9: when sharing is started from a state that holds no stream, the
    [ended] handler put on the first video track belongs to that render.
    When the track's source ends, the flag and the reference are cleared
    and the only track that becomes ended is the one whose source ended:
    the handler stops no track of the capture. *)
Theorem track_end_after_share_stops_no_track (w : World) (s : MediaStream)
    (v : MediaStreamTrack) (vs : list MediaStreamTrack) :
  isScreenSharing (ui w) = false →
  stream (ui w) = None →
  getVideoTracks s = v :: vs →
  track_id v ∉ ended w →
  stream (ui (run w [ClickToggleScreenShare;
                     DisplayMediaSettled (length (pending w)) (inr s)])) = Some s
  ∧ stream (ui (run w [ClickToggleScreenShare;
                       DisplayMediaSettled (length (pending w)) (inr s);
                       TrackEnded (track_id v)])) = None
  ∧ isScreenSharing (ui (run w [ClickToggleScreenShare;
                                DisplayMediaSettled (length (pending w)) (inr s);
                                TrackEnded (track_id v)])) = false
  ∧ ended (run w [ClickToggleScreenShare;
                  DisplayMediaSettled (length (pending w)) (inr s);
                  TrackEnded (track_id v)]) = {[track_id v]} ∪ ended w.
Proof.
  intros Hf Hs Hv Hlive. unfold run. cbn [foldl].
  rewrite (toggleScreenShare_request_eq w Hf). set (w1 := mkWorld _ _ _ _ _ _ _).
  rewrite (settle_resolved_eq w1 _ ViaToggleScreenShare (ui w) s)
    by apply lookup_new_pending.
  rewrite Hv.
  cbn [w1 ui ended onended client client_calls pending acquired
       isCallActive isMicOn isVideoOn stream].
  split; [done|]. set (w2 := mkWorld _ _ _ _ _ _ _).
  rewrite (track_ended_eq w2 (track_id v) (ui w)).
  - rewrite Hs. simpl. do 2 (split; [done|]). set_solver.
  - exact Hlive.
  - apply lookup_insert_eq.
Qed.

Lemma track_end_after_share_stops_no_track_witness :
  stream (ui (run initial_world [ClickToggleScreenShare;
                DisplayMediaSettled 0 (inr screen1); TrackEnded 1])) = None
  ∧ ended (run initial_world [ClickToggleScreenShare;
             DisplayMediaSettled 0 (inr screen1); TrackEnded 1]) = {[1]} ∪ ∅.
Proof.
  pose proof (track_end_after_share_stops_no_track initial_world screen1
                (mkTrack 1 video) [] eq_refl eq_refl eq_refl) as H.
  destruct H as (_ & H1 & _ & H2).
  - simpl. apply not_elem_of_empty.
  - split; [exact H1 | exact H2].
Defined.

(** X10: in every reachable state the screen-share preview of the
    workspace is active exactly when the call is active and
    [isScreenSharing] is true; right after the call is stopped it is
    inactive. *)
Theorem preview_follows_call_and_share (w : World) :
  reachable w →
  preview_shown (ui w) = isCallActive (ui w) && isScreenSharing (ui w)
  ∧ (isCallActive (ui w) = true → preview_shown (ui (step w ClickToggleCall)) = false).
Proof.
  intros Hr. pose proof (reachable_coherent w Hr) as Hc. unfold coherent in Hc.
  split.
  - unfold preview_shown, isScreenShareActive.
    destruct (stream (ui w)) as [s|]; rewrite Hc.
    + by rewrite bool_decide_eq_true_2.
    + rewrite bool_decide_eq_false_2; [done|]. by intros [? ?].
  - intros Ha. rewrite toggleCall_stop_eq by assumption. reflexivity.
Qed.

Lemma preview_follows_call_and_share_witness :
  preview_shown (ui sharing_call)
  = isCallActive (ui sharing_call) && isScreenSharing (ui sharing_call)
  ∧ (isCallActive (ui sharing_call) = true →
     preview_shown (ui (step sharing_call ClickToggleCall)) = false).
Proof.
  apply (preview_follows_call_and_share sharing_call).
  exact (reach_step _ _ (reach_step _ _ reach_init)).
Defined.

(** ** The controls bar *)

Lemma handleMouseMove_showControls (c : Controls) (y h : Z) :
  showControls (mouse_move c (y, h)) = bool_decide (h - 100 < y)%Z.
Proof.
  unfold mouse_move, handleMouseMove. simpl.
  assert (Hb : (h - 100 <? y)%Z = bool_decide (h - 100 < y)%Z).
  { destruct (Z.ltb_spec (h - 100) y).
    - by rewrite bool_decide_eq_true_2.
    - rewrite bool_decide_eq_false_2; [done|lia]. }
  rewrite Hb. generalize (bool_decide (h - 100 < y)%Z). intros b.
  destruct (decide (b = showControls c)) as [->|Hne].
  - rewrite bool_decide_eq_false_2 by (intros Hn; by apply Hn).
    by destruct (truthy_number (mouseTimeoutRef c)).
  - rewrite bool_decide_eq_true_2 by assumption. simpl.
    by destruct (truthy_number (mouseTimeoutRef c)).
Qed.

Lemma handleMouseMove_ref_falsy (c : Controls) (m : Z * Z) :
  truthy_number (mouseTimeoutRef (mouse_move c m)) = false.
Proof.
  unfold mouse_move, handleMouseMove.
  case_bool_decide; simpl; destruct (truthy_number (mouseTimeoutRef c)) eqn:Ht; done.
Qed.

(** X11: after any sequence of mouse moves the controls bar is shown
    exactly when the last pointer position was strictly less than 100
    pixels above the bottom edge of the window, whatever came before; the
    main area has its reduced height in that case and the full height
    otherwise, and the timer reference is left falsy. *)
Theorem controls_follow_last_mouse_move (c : Controls) (ms : list (Z * Z)) (y h : Z) :
  showControls (mouse_moves c (ms ++ [(y, h)])) = bool_decide (h - 100 < y)%Z
  ∧ main_area_height (mouse_moves c (ms ++ [(y, h)]))
    = (if bool_decide (h - 100 < y)%Z then "calc(100vh - 80px)" else "100vh")
  ∧ truthy_number (mouseTimeoutRef (mouse_moves c (ms ++ [(y, h)]))) = false.
Proof.
  unfold mouse_moves, main_area_height. rewrite foldl_app. cbn [foldl].
  rewrite handleMouseMove_showControls, handleMouseMove_ref_falsy. done.
Qed.

(** ** The insight header, continued *)

Lemma sort_head_elem (es : list EmotionEntry) (h : EmotionEntry) :
  head (sort by_level_desc es) = Some h → h ∈ es.
Proof.
  revert h. induction es as [|x es IH]; intros h; simpl; [done|].
  destruct (sort by_level_desc es) as [|y r]; simpl.
  - intros [= ->]. set_solver.
  - destruct (by_level_desc x y <=? 0)%Z; simpl; intros [= ->]; [set_solver|].
    apply elem_of_cons. right. by apply IH.
Qed.

Lemma sort_first_maximum (pre post : list EmotionEntry) (e : EmotionEntry) :
  Forall (λ x, (level x < level e)%Z) pre →
  Forall (λ x, (level x ≤ level e)%Z) post →
  head (sort by_level_desc (pre ++ e :: post)) = Some e.
Proof.
  intros Hpre Hpost. induction Hpre as [|x pre Hx _ IH]; simpl.
  - destruct (sort by_level_desc post) as [|y r] eqn:Hsort; simpl; [done|].
    assert (Hy : y ∈ post) by (apply sort_head_elem; by rewrite Hsort).
    rewrite Forall_forall in Hpost. specialize (Hpost y Hy).
    unfold by_level_desc. destruct (Z.leb_spec (level y - level e) 0); [done|lia].
  - simpl in IH. destruct (sort by_level_desc (pre ++ e :: post)) as [|y r]; [done|].
    simpl in IH. injection IH as ->. simpl.
    unfold by_level_desc. destruct (Z.leb_spec (level e - level x) 0); [lia|done].
Qed.

(** X12: ties go to the entry listed first: the displayed emotion is the
    name of the first entry of greatest level, that is of the entry that
    every earlier entry is strictly below and no later entry exceeds. *)
Theorem currentEmotion_first_maximum (p : Phi3Insights)
    (pre post : list EmotionEntry) (e : EmotionEntry) :
  emotions p = Some (pre ++ e :: post) →
  Forall (λ x, (level x < level e)%Z) pre →
  Forall (λ x, (level x ≤ level e)%Z) post →
  currentEmotion (Some p) = emotion e.
Proof.
  intros Hes Hpre Hpost. unfold currentEmotion. rewrite Hes.
  pose proof (sort_first_maximum pre post e Hpre Hpost) as Hhead.
  rewrite length_app. simpl.
  replace (0 <? length pre + S (length post)) with true
    by (symmetry; apply Nat.ltb_lt; lia).
  destruct (sort by_level_desc (pre ++ e :: post)); simpl in Hhead; congruence.
Qed.

Lemma currentEmotion_first_maximum_witness :
  currentEmotion (Some (mkInsights
    (Some ([mkEmotion "Interest" 75] ++ mkEmotion "Confusion" 90 :: [mkEmotion "Joy" 90]))))
  = "Confusion".
Proof.
  apply (currentEmotion_first_maximum
           (mkInsights (Some [mkEmotion "Interest" 75; mkEmotion "Confusion" 90;
                              mkEmotion "Joy" 90]))
           [mkEmotion "Interest" 75] [mkEmotion "Joy" 90] (mkEmotion "Confusion" 90)).
  - reflexivity.
  - repeat constructor.
  - repeat constructor. simpl. lia.
Defined.

Lemma or_default_string_nonempty (v : option string) (d : string) :
  d ≠ "" → or_default_string v d ≠ "".
Proof.
  intros Hd. unfold or_default_string. destruct v as [s|]; [|done].
  destruct (String.eqb_spec s ""); done.
Qed.

(** X13: the coaching text and the call stage shown in the header are
    never empty: a published text that is not empty is shown as it is, and
    an absent or empty one, as well as any text before the first result is
    published, is replaced by the default: the prompt "Ask about their
    current workflow and pain points to better understand their needs."
    for the coaching text and "Discovery" for the stage. *)
Theorem header_texts_never_empty (phi3Insights : option Phi3Texts) :
  aiResponse phi3Insights ≠ ""
  ∧ currentStage phi3Insights ≠ ""
  ∧ (∀ p s, phi3Insights = Some p → aiCoaching p = Some s → s ≠ "" →
            aiResponse phi3Insights = s)
  ∧ (∀ p s, phi3Insights = Some p → callStage p = Some s → s ≠ "" →
            currentStage phi3Insights = s)
  ∧ (∀ p, phi3Insights = Some p → callStage p = Some "" ∨ callStage p = None →
          currentStage phi3Insights = "Discovery")
  ∧ (phi3Insights = None → currentStage phi3Insights = "Discovery")
  ∧ (∀ p, phi3Insights = Some p → aiCoaching p = Some "" ∨ aiCoaching p = None →
          aiResponse phi3Insights
          = "Ask about their current workflow and pain points to better understand their needs.")
  ∧ (phi3Insights = None →
     aiResponse phi3Insights
     = "Ask about their current workflow and pain points to better understand their needs.").
Proof.
  split; [by apply or_default_string_nonempty|].
  split; [by apply or_default_string_nonempty|].
  unfold aiResponse, currentStage, or_default_string.
  split; [|split; [|split; [|split; [|split]]]].
  - intros p s -> Hs Hne. simpl. rewrite Hs. simpl.
    by destruct (String.eqb_spec s "").
  - intros p s -> Hs Hne. simpl. rewrite Hs. simpl.
    by destruct (String.eqb_spec s "").
  - intros p -> [Hs|Hs]; simpl; by rewrite Hs.
  - by intros ->.
  - intros p -> [Hs|Hs]; simpl; by rewrite Hs.
  - by intros ->.
Qed.

Lemma header_texts_never_empty_witness :
  currentStage (Some (mkTexts (Some "") (Some "Closing"))) = "Closing"
  ∧ aiResponse (Some (mkTexts (Some "") (Some "Closing")))
    = "Ask about their current workflow and pain points to better understand their needs.".
Proof.
  pose proof (header_texts_never_empty (Some (mkTexts (Some "") (Some "Closing"))))
    as (_ & _ & _ & H2 & _ & _ & H3 & _).
  split.
  - apply (H2 (mkTexts (Some "") (Some "Closing")) "Closing"); [reflexivity..|discriminate].
  - apply (H3 (mkTexts (Some "") (Some "Closing"))); [reflexivity|by left].
Defined.

(** ** The model loader *)

(** X14: [handleLoadModel] raises [isInitiating] before it awaits and
    always lowers it again, whether [initialize()] succeeds, reports
    failure or rejects, and whether [onLoad] throws.  [onLoad] is called
    once exactly when the result reports success and the prop was given.
    A rejection of [initialize()] is not caught: it leaves the handler. *)
Theorem handleLoadModel_always_resets (onLoad : option (Completion unit))
    (r : Exn + bool) (l : Loader) :
  isInitiating (handleLoadModel l) = true
  ∧ onLoad_calls (handleLoadModel l) = onLoad_calls l
  ∧ isInitiating (snd (handleLoadModel_resume onLoad r (handleLoadModel l))) = false
  ∧ onLoad_calls (snd (handleLoadModel_resume onLoad r (handleLoadModel l)))
    = (if bool_decide (r = inr true ∧ is_Some onLoad)
       then S (onLoad_calls l) else onLoad_calls l)
  ∧ (∀ e, r = inl e →
          fst (handleLoadModel_resume onLoad r (handleLoadModel l)) = Thrown e)
  ∧ (r = inr false →
     fst (handleLoadModel_resume onLoad r (handleLoadModel l)) = Normal tt)
  ∧ (∀ c, r = inr true → onLoad = Some c →
          fst (handleLoadModel_resume onLoad r (handleLoadModel l)) = c).
Proof.
  do 3 (split; [reflexivity|]). split; [|repeat split].
  - destruct r as [e|[|]], onLoad as [c|]; cbn -[bool_decide];
      case_bool_decide as H; try done.
    + by destruct H as [? _].
    + by destruct H as [? _].
    + exfalso. apply H. eauto.
    + by destruct H as [_ [? ?]].
    + by destruct H as [? _].
    + by destruct H as [? _].
  - by intros e ->.
  - by intros ->.
  - by intros c -> ->.
Qed.

Lemma handleLoadModel_always_resets_witness :
  fst (handleLoadModel_resume None (inl "OutOfMemory") (handleLoadModel (mkLoader false 0)))
  = Thrown "OutOfMemory"
  ∧ isInitiating (snd (handleLoadModel_resume None (inl "OutOfMemory")
                         (handleLoadModel (mkLoader false 0)))) = false.
Proof.
  pose proof (handleLoadModel_always_resets None (inl "OutOfMemory") (mkLoader false 0))
    as (_ & _ & H1 & _ & H2 & _).
  split; [apply (H2 "OutOfMemory"); reflexivity | exact H1].
Defined.

(** X15: the load button can be pressed (rendered and not disabled) only
    when the model is neither loaded nor loading and no load was started
    from this component; it then reads "Load Phi-3 Mini AI Model" and the
    status reads "Error" or "Not loaded".  While a load started here is
    pending the component shows no button that can be pressed, so the
    load cannot be started twice. *)
Theorem load_button_enabled_only_when_idle (ctx : Phi3Context) (hideWhenLoaded : bool)
    (l : Loader) (v : LoaderView) :
  Phi3ModelLoader_render ctx hideWhenLoaded l = Some v →
  (∀ label, loadButton v = Some (false, label) →
     isLoaded ctx = false ∧ isLoading ctx = false ∧ isInitiating l = false
     ∧ label = "Load Phi-3 Mini AI Model"
     ∧ (statusText v = "Error" ∨ statusText v = "Not loaded"))
  ∧ (isInitiating l = true → ∀ label, loadButton v ≠ Some (false, label))
  ∧ (readyNote v = true ↔ statusText v = "Loaded").
Proof.
  unfold Phi3ModelLoader_render.
  destruct ctx as [ld lg err]. simpl.
  destruct ld, hideWhenLoaded, lg, (isInitiating l), (truthy_string err);
    simpl; intros [= <-]; simpl;
    (split; [intros label [= <-]; repeat split; auto
            | split; [intros; congruence | split; done]]).
Qed.

Lemma load_button_enabled_only_when_idle_witness :
  statusText (mkLoaderView "Not loaded" (Some (false, "Load Phi-3 Mini AI Model"))
                           false None) = "Error"
  ∨ statusText (mkLoaderView "Not loaded" (Some (false, "Load Phi-3 Mini AI Model"))
                             false None) = "Not loaded".
Proof.
  pose proof (load_button_enabled_only_when_idle
                (mkContext false false None) false (mkLoader false 0) _ eq_refl)
    as (H & _).
  exact (proj2 (proj2 (proj2 (proj2 (H _ eq_refl))))).
Defined.

(** ** A refused share request *)

(** X16: when the capture request made by the share button is rejected,
    the rejection is caught in [toggleScreenShare] and the page is exactly
    as it was before the click. *)
Theorem refused_share_changes_nothing (w : World) (e : Exn) :
  isScreenSharing (ui w) = false →
  fst (dispatch (step w ClickToggleScreenShare)
                (DisplayMediaSettled (length (pending w)) (inl e))) = Normal tt
  ∧ run w [ClickToggleScreenShare; DisplayMediaSettled (length (pending w)) (inl e)] = w.
Proof.
  intros Hf. unfold run. cbn [foldl]. unfold step at 2.
  rewrite (toggleScreenShare_request_eq w Hf). set (w1 := mkWorld _ _ _ _ _ _ _).
  assert (Hp : pending w1 !! length (pending w) = Some (ViaToggleScreenShare, ui w))
    by apply lookup_new_pending.
  rewrite (settle_rejected_eq w1 _ _ _ e Hp).
  split; [done|]. cbn [snd w1 ui ended onended client client_calls pending acquired].
  rewrite delete_new_pending. by destruct w.
Qed.

Lemma refused_share_changes_nothing_witness :
  run initial_world [ClickToggleScreenShare; DisplayMediaSettled 0 (inl "NotAllowedError")]
  = initial_world.
Proof.
  apply (refused_share_changes_nothing initial_world "NotAllowedError"). reflexivity.
Defined.
